(** * Pipeline notifications: failure attribution and routing

    A shallow embedding of [tasks/libs/pipeline/notifications.py]:
    the test-result parser ([get_failed_tests]), the routing of failed jobs to
    their owners ([find_job_owners]), the registry audit
    ([check_for_missing_owners_slack_and_jira]), the loader of the
    channel/project maps ([load_and_validate]) and the composition of the
    notification text ([get_pr_from_commit], [base_message]).

    Python values are modelled as follows.
    - [str] is [string], one character for each code point, the code points
      being those below 256; the characters the code inspects (parentheses,
      the hash sign, digits, the slash, the newline) are ASCII, and
      [str.lower()] also changes the Latin-1 capitals.
    - [dict] is stdpp's [gmap]; a raised exception is the [Raise] branch of
      [result].
    - A decoded JSON document is a [json] tree.  *)

From Stdlib Require Import ZArith String Ascii List Bool Lia.
From stdpp Require Import base option list gmap strings fin_maps countable.
From stdpp Require pretty.

(** ** Exceptions *)

Inductive exn : Type :=
| JSONDecodeError
| TypeError
| KeyError (key : string)
| ValueError (msg : string).

Inductive result (A : Type) : Type :=
| Ok (a : A)
| Raise (e : exn).
Arguments Ok {A} a.
Arguments Raise {A} e.

(** Sequencing: the first exception raised ends the computation.  The
    notation [x ← r; k] is stdpp's, for this instance. *)
#[global] Instance result_ret : MRet result := fun A a => Ok a.
#[global] Instance result_bind : MBind result := fun A B k r =>
  match r with
  | Ok a => k a
  | Raise e => Raise e
  end.

Definition is_ok {A : Type} (r : result A) : bool :=
  match r with Ok _ => true | Raise _ => false end.

(** ** Python string operations *)

Module PyStr.

(** [sub in s] *)
Fixpoint contains (sub s : string) : bool :=
  String.prefix sub s ||
  match s with
  | EmptyString => false
  | String _ s' => contains sub s'
  end.

(** One character of [str.lower()], for the code points below 256: the
    capitals are [A] to [Z] (65 to 90) and the Latin-1 capitals 192 to 222
    without the multiplication sign 215; the small letter of each is 32
    further.  The other characters stay, the sharp s (223) and the micro
    sign (181) among them. *)
Definition lower_ascii (c : ascii) : ascii :=
  let n := nat_of_ascii c in
  if (65 <=? n)%nat && (n <=? 90)%nat
     || (192 <=? n)%nat && (n <=? 222)%nat && negb (n =? 215)%nat
  then ascii_of_nat (n + 32) else c.

(** [s.lower()] *)
Fixpoint lower (s : string) : string :=
  match s with
  | EmptyString => EmptyString
  | String c s' => String (lower_ascii c) (lower s')
  end.

(** [s.replace(old, new)] for a non-empty [old]: the occurrences are taken
    from the left and do not overlap; [skip] counts the characters of an
    occurrence that remain to be dropped. *)
Fixpoint replace_go (old new : string) (skip : nat) (s : string) : string :=
  match s with
  | EmptyString => EmptyString
  | String c s' =>
    match skip with
    | S k => replace_go old new k s'
    | O =>
      if String.prefix old s
      then new +:+ replace_go old new (String.length old - 1) s'
      else String c (replace_go old new 0 s')
    end
  end.

(** [s.replace(old, new)] for the empty [old]: [new] goes before every
    character and at the end. *)
Fixpoint intersperse (new s : string) : string :=
  match s with
  | EmptyString => new
  | String c s' => new +:+ String c (intersperse new s')
  end.

Definition replace (s old new : string) : string :=
  match old with
  | EmptyString => intersperse new s
  | String _ _ => replace_go old new 0 s
  end.

(** The f-string rendering of a value that [os.getenv] may leave [None]. *)
Definition fmt (o : option string) : string :=
  match o with
  | Some s => s
  | None => "None"
  end.

End PyStr.

(** ** The pull-request reference of a commit title *)

Definition newline : ascii := ascii_of_nat 10.

(** The character class [[0-9]]. *)
Definition is_digit (c : ascii) : bool :=
  let n := nat_of_ascii c in (48 <=? n)%nat && (n <=? 57)%nat.

Fixpoint all_digits (s : string) : bool :=
  match s with
  | EmptyString => true
  | String c s' => is_digit c && all_digits s'
  end.

(** [$] without [re.MULTILINE]: the end of the string, or just before a
    newline that ends the string. *)
Definition at_end (s : string) : bool :=
  match s with
  | EmptyString => true
  | String c EmptyString => Ascii.eqb c newline
  | _ => false
  end.

(** The digits of group 1, the closing parenthesis and the end anchor, matched
    at the start of [s]; the star on the digits is greedy and gives a digit
    back when the rest fails.  The result is group 1. *)
Fixpoint match_digits_close (s : string) : option string :=
  match s with
  | EmptyString => None
  | String c s' =>
    let shorter := if Ascii.eqb c ")"%char then (if at_end s' then Some EmptyString else None) else None in
    if is_digit c then
      match match_digits_close s' with
      | Some ds => Some (String c ds)
      | None => shorter
      end
    else shorter
  end.

(** The part of the pattern after the leading dot-star (an opening
    parenthesis, a hash sign, group 1, a closing parenthesis, the end anchor),
    matched at the start of [s]. *)
Definition match_tail (s : string) : option string :=
  match s with
  | String "("%char (String "#"%char s') => match_digits_close s'
  | _ => None
  end.

(** The whole pattern matched at the start of [s]: the greedy dot-star takes
    every character but a newline and backtracks one character at a time. *)
Fixpoint match_here (s : string) : option string :=
  match s with
  | EmptyString => match_tail s
  | String c s' =>
    if Ascii.eqb c newline then match_tail s
    else
      match match_here s' with
      | Some ds => Some ds
      | None => match_tail s
      end
  end.

(** [re.search] of the pattern of [get_pr_from_commit] in [s]: the first start
    position, from the left, at which the pattern matches; the result is
    group 1. *)
Fixpoint re_search (s : string) : option string :=
  match match_here s with
  | Some ds => Some ds
  | None =>
    match s with
    | EmptyString => None
    | String _ s' => re_search s'
    end
  end.

Definition DATADOG_AGENT_GITHUB_ORG_URL : string := "https://github.com/DataDog".

Definition get_pr_from_commit (commit_title : string) (project_title : option string)
  : option (string * string) :=
  match re_search commit_title with
  | None => None
  | Some parsed_pr_id =>
    Some (parsed_pr_id,
          DATADOG_AGENT_GITHUB_ORG_URL +:+ "/" +:+ PyStr.fmt project_title
            +:+ "/pull/" +:+ parsed_pr_id)
  end.

(** The CI variables [base_message] reads with [os.getenv]. *)
Record environ : Type := {
  CI_PROJECT_TITLE : option string;
  CI_COMMIT_TITLE : option string;
  CI_PIPELINE_URL : option string;
  CI_PIPELINE_ID : option string;
  CI_COMMIT_REF_NAME : option string;
  CI_PROJECT_URL : option string;
  CI_COMMIT_SHA : option string;
  CI_COMMIT_SHORT_SHA : option string
}.

(** The local [enhanced_commit_title] of [base_message]. *)
Definition enhanced_commit_title (commit_title : string) (project_title : option string)
  : string :=
  match get_pr_from_commit commit_title project_title with
  | Some (parsed_pr_id, pr_url_github) =>
    PyStr.replace commit_title ("#" +:+ parsed_pr_id)
      ("<" +:+ pr_url_github +:+ "|#" +:+ parsed_pr_id +:+ ">")
  | None => commit_title
  end.

(** [author] is the result of [get_git_author()], a subprocess call. *)
Definition base_message (env : environ) (author header state : string) : string :=
  let project_title := CI_PROJECT_TITLE env in
  let commit_title := default EmptyString (CI_COMMIT_TITLE env) in
  let pipeline_url := CI_PIPELINE_URL env in
  let pipeline_id := CI_PIPELINE_ID env in
  let commit_ref_name := CI_COMMIT_REF_NAME env in
  let commit_url_gitlab :=
    PyStr.fmt (CI_PROJECT_URL env) +:+ "/commit/" +:+ PyStr.fmt (CI_COMMIT_SHA env) in
  let commit_url_github :=
    DATADOG_AGENT_GITHUB_ORG_URL +:+ "/" +:+ PyStr.fmt project_title
      +:+ "/commit/" +:+ PyStr.fmt (CI_COMMIT_SHA env) in
  let commit_short_sha := CI_COMMIT_SHORT_SHA env in
  header +:+ " pipeline <" +:+ PyStr.fmt pipeline_url +:+ "|" +:+ PyStr.fmt pipeline_id
    +:+ "> for " +:+ PyStr.fmt commit_ref_name +:+ " " +:+ state +:+ "."
    +:+ String newline
         (enhanced_commit_title commit_title project_title
          +:+ " (<" +:+ commit_url_gitlab +:+ "|" +:+ PyStr.fmt commit_short_sha
          +:+ ">)(:github: <" +:+ commit_url_github +:+ "|link>) by " +:+ author).

(** ** Decoded JSON and the test-result parser *)

(** What [json.loads] returns.  An object is the list of the items of the
    resulting [dict] (one item per key).  A number is given by an integer: the
    parser never reads a number, it only hashes one when a package is a
    number, and a float that equals an integer hashes as that integer. *)
#[warnings="-register-all"]
Inductive json : Type :=
| JNull
| JBool (b : bool)
| JInt (n : Z)
| JStr (s : string)
| JArr (items : list json)
| JObj (fields : list (string * json)).

(** One line of [test_output.splitlines()], given by what [json.loads] does on
    it: [Malformed] when it raises [json.JSONDecodeError]. *)
Inductive line : Type :=
| Malformed
| Decoded (j : json).

Definition json_loads (l : line) : result json :=
  match l with
  | Malformed => Raise JSONDecodeError
  | Decoded j => Ok j
  end.

(** [j == s] for a [str] [s]. *)
Definition json_eq_str (j : json) (s : string) : bool :=
  match j with
  | JStr t => String.eqb t s
  | _ => false
  end.

Fixpoint assoc (k : string) (fields : list (string * json)) : option json :=
  match fields with
  | [] => None
  | (k', v) :: rest => if String.eqb k' k then Some v else assoc k rest
  end.

(** [s in j] for a [str] [s]: a key of a dict, an element of a list, a
    substring of a string; the other values are not iterable. *)
Definition py_in (s : string) (j : json) : result bool :=
  match j with
  | JObj fields => Ok (bool_decide (is_Some (assoc s fields)))
  | JArr items => Ok (existsb (fun x => json_eq_str x s) items)
  | JStr t => Ok (PyStr.contains s t)
  | _ => Raise TypeError
  end.

(** [j[k]] for a [str] [k]. *)
Definition getitem (j : json) (k : string) : result json :=
  match j with
  | JObj fields =>
    match assoc k fields with
    | Some v => Ok v
    | None => Raise (KeyError k)
    end
  | _ => Raise TypeError
  end.

(** The hashable values, up to Python's equality ([True == 1], [False == 0]). *)
Inductive pykey : Type :=
| KNone
| KInt (n : Z)
| KStr (s : string).

#[global] Instance pykey_eq_dec : EqDecision pykey.
Proof. solve_decision. Defined.

#[global] Instance pykey_countable : Countable pykey.
Proof.
  refine (inj_countable'
    (fun k => match k with
              | KNone => inl ()
              | KInt n => inr (inl n)
              | KStr s => inr (inr s)
              end)
    (fun x => match x with
              | inl _ => KNone
              | inr (inl n) => KInt n
              | inr (inr s) => KStr s
              end) _).
  intros []; reflexivity.
Defined.

(** [hash(j)]: lists and dicts are unhashable. *)
Definition hash_key (j : json) : result pykey :=
  match j with
  | JNull => Ok KNone
  | JBool b => Ok (KInt (Z.b2z b))
  | JInt n => Ok (KInt n)
  | JStr s => Ok (KStr s)
  | JArr _ | JObj _ => Raise TypeError
  end.

(** The key [(package, name)] of [failed_tests]. *)
Definition tuple_key (package name : json) : result (pykey * pykey) :=
  p ← hash_key package;
  n ← hash_key name;
  Ok (p, n).

(** Modelled from the spec: the class [Test] of [tasks.libs.types.types] is
    missing; a TestRecord is identified by its package and its test name, and
    the record keeps the two as they are passed to the constructor. *)
Record Test : Type := mkTest {
  test_name : json;
  test_package : json
}.

(** The body of the loop of [get_failed_tests]. *)
Definition process_line (failed_tests : gmap (pykey * pykey) Test) (l : line)
  : result (gmap (pykey * pykey) Test) :=
  json_test ← json_loads l;
  has_test ← py_in "Test" json_test;
  if has_test : bool then
    name ← getitem json_test "Test";
    package ← getitem json_test "Package";
    action ← getitem json_test "Action";
    if json_eq_str action "fail" then
      subtest ← py_in "/" name;
      if subtest : bool then Ok failed_tests
      else
        key ← tuple_key package name;
        Ok (<[key := mkTest name package]> failed_tests)
    else if json_eq_str action "pass" then
      key ← tuple_key package name;
      if bool_decide (is_Some (failed_tests !! key))
      then Ok (delete key failed_tests)
      else Ok failed_tests
    else Ok failed_tests
  else Ok failed_tests.

Fixpoint process_lines (failed_tests : gmap (pykey * pykey) Test) (lines : list line)
  : result (gmap (pykey * pykey) Test) :=
  match lines with
  | [] => Ok failed_tests
  | l :: rest =>
    failed_tests' ← process_line failed_tests l;
    process_lines failed_tests' rest
  end.

(** The dict [failed_tests] when [get_failed_tests] reaches its [return]; the
    artifact is given by its lines (none when it is empty or missing). *)
Definition failed_tests_of (test_output : list line) : result (gmap (pykey * pykey) Test) :=
  process_lines ∅ test_output.

(** [failed_tests.values()]; the order of the values is not modelled. *)
Definition get_failed_tests (test_output : list line) : result (list Test) :=
  failed_tests ← failed_tests_of test_output;
  Ok ((map_to_list failed_tests).*2).

(** A test event as the Go test runner writes it. *)
Definition event (action package name : string) : line :=
  Decoded (JObj [("Action", JStr action); ("Package", JStr package); ("Test", JStr name)]).

(** [l] decodes to an object whose [Action], [Package] and [Test] are the
    given strings. *)
Definition is_event (action package name : string) (l : line) : bool :=
  match l with
  | Decoded (JObj fields) =>
    match assoc "Test" fields, assoc "Package" fields, assoc "Action" fields with
    | Some n, Some p, Some a =>
      json_eq_str n name && json_eq_str p package && json_eq_str a action
    | _, _, _ => false
    end
  | _ => false
  end.

(** ** The ownership table *)

(** An element of [CodeOwners.paths] of the [codeowners] package: the compiled
    pattern (given by its [search]), the pattern as written, the owners as
    (kind, name) pairs, the line number and the section. *)
Record path_entry : Type := mkPath {
  path_pattern : string -> bool;
  path_text : string;
  path_owners : list (string * string);
  path_line : nat;
  path_section : option string
}.

Record CodeOwners : Type := mkOwners {
  paths : list path_entry
}.

(** [owners.of(key)]: the owners of the first element of [paths] whose pattern
    matches, the empty list when none does. *)
Definition of_ (owners : CodeOwners) (key : string) : list (string * string) :=
  match List.find (fun e => path_pattern e key) (paths owners) with
  | Some e => path_owners e
  | None => []
  end.


(** ** Failed jobs *)

(** Modelled from the spec: the enumeration [FailedJobReason] of
    [tasks.libs.types.types] is missing; it has at least a generic test
    failure, the e2e infrastructure failure and another infrastructure
    failure. *)
Inductive FailedJobReason : Type :=
| TEST_FAILURE
| E2E_INFRA_FAILURE
| INFRA_FAILURE.

#[global] Instance FailedJobReason_eq_dec : EqDecision FailedJobReason.
Proof. solve_decision. Defined.

(** Modelled from the spec: a failed job has a name and a job id, a failure
    reason, a mandatory flag and an infra flag. *)
Record ProjectJob : Type := mkJob {
  id : Z;
  name : string;
  failure_reason : FailedJobReason;
  mandatory : bool;
  infra : bool
}.

#[global] Instance ProjectJob_eq_dec : EqDecision ProjectJob.
Proof. solve_decision. Defined.

(** Modelled from the spec: the class [FailedJobs] of [tasks.libs.types.types]
    is missing; it files a failed job by its mandatory flag and its infra
    flag. *)
Record FailedJobs : Type := mkFailedJobs {
  mandatory_job_failures : list ProjectJob;
  optional_job_failures : list ProjectJob;
  mandatory_infra_job_failures : list ProjectJob;
  optional_infra_job_failures : list ProjectJob
}.

(** [FailedJobs()] *)
Definition no_failed_jobs : FailedJobs := mkFailedJobs [] [] [] [].

Definition add_failed_job (job : ProjectJob) (fj : FailedJobs) : FailedJobs :=
  match infra job, mandatory job with
  | true, false =>
    mkFailedJobs (mandatory_job_failures fj) (optional_job_failures fj)
      (mandatory_infra_job_failures fj) (optional_infra_job_failures fj ++ [job])
  | true, true =>
    mkFailedJobs (mandatory_job_failures fj) (optional_job_failures fj)
      (mandatory_infra_job_failures fj ++ [job]) (optional_infra_job_failures fj)
  | false, false =>
    mkFailedJobs (mandatory_job_failures fj) (optional_job_failures fj ++ [job])
      (mandatory_infra_job_failures fj) (optional_infra_job_failures fj)
  | false, true =>
    mkFailedJobs (mandatory_job_failures fj ++ [job]) (optional_job_failures fj)
      (mandatory_infra_job_failures fj) (optional_infra_job_failures fj)
  end.

Definition all_non_infra_failures (fj : FailedJobs) : list ProjectJob :=
  mandatory_job_failures fj ++ optional_job_failures fj.

Definition all_failures (fj : FailedJobs) : list ProjectJob :=
  mandatory_job_failures fj ++ optional_job_failures fj
    ++ mandatory_infra_job_failures fj ++ optional_infra_job_failures fj.

(** The collections a run can build: [FailedJobs()] followed by calls of
    [add_failed_job].  Each list holds the jobs with its two flags. *)
Definition filed (fj : FailedJobs) : bool :=
  forallb (fun j => negb (infra j) && mandatory j) (mandatory_job_failures fj)
  && forallb (fun j => negb (infra j) && negb (mandatory j)) (optional_job_failures fj)
  && forallb (fun j => infra j && mandatory j) (mandatory_infra_job_failures fj)
  && forallb (fun j => infra j && negb (mandatory j)) (optional_infra_job_failures fj).

(** ** Routing *)

Definition E2E_OWNER : string := "@DataDog/agent-e2e-testing".

(** [owners_to_notify[owner].add_failed_job(job)] on a
    [defaultdict(FailedJobs)]. *)
Definition notify (owner : string) (job : ProjectJob) (owners_to_notify : gmap string FailedJobs)
  : gmap string FailedJobs :=
  <[owner := add_failed_job job (default no_failed_jobs (owners_to_notify !! owner))]>
    owners_to_notify.

(** The first loop of [find_job_owners]. *)
Definition notify_e2e (owners_to_notify : gmap string FailedJobs) (job : ProjectJob)
  : gmap string FailedJobs :=
  if decide (failure_reason job = E2E_INFRA_FAILURE)
  then notify E2E_OWNER job owners_to_notify
  else owners_to_notify.

(** The inner loop of the second loop. *)
Definition notify_teams (job : ProjectJob) (job_owners : list (string * string))
    (owners_to_notify : gmap string FailedJobs) : gmap string FailedJobs :=
  fold_left
    (fun acc ko => if String.eqb (fst ko) "TEAM" then notify (snd ko) job acc else acc)
    job_owners owners_to_notify.

Definition find_job_owners (failed_jobs : FailedJobs) (owners : CodeOwners)
  : gmap string FailedJobs :=
  let owners_to_notify :=
    fold_left notify_e2e (mandatory_infra_job_failures failed_jobs) ∅ in
  fold_left
    (fun acc job => notify_teams job (of_ owners (name job)) acc)
    (all_non_infra_failures failed_jobs) owners_to_notify.

(** [job] is in the bucket of [owner]. *)
Definition in_bucket (routing : gmap string FailedJobs) (owner : string) (job : ProjectJob)
  : Prop :=
  exists bucket, routing !! owner = Some bucket /\ job ∈ all_failures bucket.

(** ** The registry audit *)

Definition slack_message (team : string) : string :=
  "The team " +:+ team +:+ " doesn't have a slack team assigned !!".

Definition jira_message (team : string) : string :=
  "The team " +:+ team +:+ " doesn't have a jira project assigned !!".

(** One of the two checks of the loop body: [state] is the pair of [error] and
    of the lines printed so far. *)
Definition check_map (print_missing_teams : bool) (map : gmap string string)
    (team message : string) (state : bool * list string) : bool * list string :=
  if bool_decide (is_Some (map !! PyStr.lower team))
  then state
  else (true, if print_missing_teams then snd state ++ [message] else snd state).

(** The body of the loop of [check_for_missing_owners_slack_and_jira]. *)
Definition check_path (print_missing_teams : bool) (GITHUB_SLACK_MAP GITHUB_JIRA_MAP : gmap string string)
    (state : bool * list string) (path : path_entry) : bool * list string :=
  match path_owners path with
  | [] => state
  | (kind, team) :: _ =>
    if negb (String.eqb kind "TEAM") then state
    else
      let state := check_map print_missing_teams GITHUB_SLACK_MAP team (slack_message team) state in
      check_map print_missing_teams GITHUB_JIRA_MAP team (jira_message team) state
  end.

(** The result is the returned [error] and the lines printed. *)
Definition check_for_missing_owners_slack_and_jira (print_missing_teams : bool)
    (owners : CodeOwners) (GITHUB_SLACK_MAP GITHUB_JIRA_MAP : gmap string string)
  : bool * list string :=
  fold_left (check_path print_missing_teams GITHUB_SLACK_MAP GITHUB_JIRA_MAP)
    (paths owners) (false, []).

(** The paths whose first owner is the team [team]. *)
Definition first_owned (team : string) (owners : CodeOwners) : list path_entry :=
  List.filter
    (fun e => match path_owners e with
              | (kind, t) :: _ => String.eqb kind "TEAM" && String.eqb t team
              | [] => false
              end)
    (paths owners).

(** The number of maps that lack the team. *)
Definition missing_maps (GITHUB_SLACK_MAP GITHUB_JIRA_MAP : gmap string string) (team : string)
  : nat :=
  (if bool_decide (is_Some (GITHUB_SLACK_MAP !! PyStr.lower team)) then 0 else 1)
  + (if bool_decide (is_Some (GITHUB_JIRA_MAP !! PyStr.lower team)) then 0 else 1).

(** The printed lines that name [team]. *)
Definition reports_of (team : string) (printed : list string) : list string :=
  List.filter
    (fun m => String.eqb m (slack_message team) || String.eqb m (jira_message team))
    printed.

(** ** Loading the channel and project maps *)

(** A key or a value of the dict [yaml.safe_load] returns: a [str], or any
    other value, given by the text an f-string shows for it. *)
Inductive yaml : Type :=
| YStr (s : string)
| YOther (shown : string).

Definition yaml_show (y : yaml) : string :=
  match y with
  | YStr s => s
  | YOther shown => shown
  end.

Definition is_ystr (y : yaml) : bool :=
  match y with
  | YStr _ => true
  | YOther _ => false
  end.

Definition non_string_message (file_name : string) (key value : yaml) : string :=
  "File " +:+ file_name +:+ " contains a non-string key or value. Key: "
    +:+ yaml_show key +:+ ", Value: " +:+ yaml_show value.

(** The loop of [load_and_validate] over the items of the loaded dict. *)
Fixpoint load_items (file_name default_placeholder default_value : string)
    (items : list (yaml * yaml)) (result_ : gmap string string)
  : result (gmap string string) :=
  match items with
  | [] => Ok result_
  | (YStr key, YStr value) :: rest =>
    load_items file_name default_placeholder default_value rest
      (<[key := if String.eqb value default_placeholder then default_value else value]> result_)
  | (key, value) :: _ => Raise (ValueError (non_string_message file_name key value))
  end.

(** [items] are the items of the dict read from the file [file_name]. *)
Definition load_and_validate (file_name : string) (items : list (yaml * yaml))
    (default_placeholder default_value : string) : result (gmap string string) :=
  load_items file_name default_placeholder default_value items ∅.

Definition DEFAULT_SLACK_CHANNEL : string := "#agent-developer-experience".
Definition DEFAULT_JIRA_PROJECT : string := "AGNTR".

(** ** Definitions used to state the properties *)

(** [c] occurs in [s]. *)
Fixpoint mem_char (c : ascii) (s : string) : bool :=
  match s with
  | EmptyString => false
  | String c' s' => Ascii.eqb c' c || mem_char c s'
  end.

(** The title ends with a parenthesised hash sign and the digits [ds]; as the
    end anchor of the pattern does, a newline may close the title. *)
Definition trailing_pr (title ds : string) : Prop :=
  all_digits ds = true /\
  exists pre, title = pre +:+ "(#" +:+ ds +:+ ")"
              \/ title = pre +:+ "(#" +:+ ds +:+ String ")" (String newline EmptyString).

(** The link [base_message] puts in place of the reference to the pull
    request [ds]. *)
Definition pr_link (project_title : option string) (ds : string) : string :=
  "<https://github.com/DataDog/" +:+ PyStr.fmt project_title +:+ "/pull/" +:+ ds
    +:+ "|#" +:+ ds +:+ ">".

(** Every hash sign of [s] replaced by [link]. *)
Fixpoint wrap_hashes (link s : string) : string :=
  match s with
  | EmptyString => EmptyString
  | String c s' =>
    if Ascii.eqb c "#"%char then link +:+ wrap_hashes link s'
    else String c (wrap_hashes link s')
  end.

(** The bucket of one owner, followed through [find_job_owners]: [None] is
    the owner without a bucket. *)
Definition bucket_add (job : ProjectJob) (bucket : option FailedJobs) : option FailedJobs :=
  Some (add_failed_job job (default no_failed_jobs bucket)).

Definition is_team (owner : string) (ko : string * string) : bool :=
  String.eqb (fst ko) "TEAM" && String.eqb (snd ko) owner.

Definition bucket_teams (owner : string) (job : ProjectJob) (job_owners : list (string * string))
    (bucket : option FailedJobs) : option FailedJobs :=
  fold_left (fun b ko => if is_team owner ko then bucket_add job b else b) job_owners bucket.

Definition bucket_jobs (owner : string) (owners_of : ProjectJob -> list (string * string))
    (jobs : list ProjectJob) (bucket : option FailedJobs) : option FailedJobs :=
  fold_left (fun b job => bucket_teams owner job (owners_of job) b) jobs bucket.

Definition bucket_e2e (jobs : list ProjectJob) (bucket : option FailedJobs)
  : option FailedJobs :=
  fold_left
    (fun b job => if decide (failure_reason job = E2E_INFRA_FAILURE) then bucket_add job b else b)
    jobs bucket.

Definition in_opt (bucket : option FailedJobs) (job : ProjectJob) : Prop :=
  exists fj, bucket = Some fj /\ job ∈ all_failures fj.

(** The lines the audit prints for one path: one for each map that lacks the
    team that is the first owner of the path. *)
Definition path_messages (GITHUB_SLACK_MAP GITHUB_JIRA_MAP : gmap string string)
    (path : path_entry) : list string :=
  match path_owners path with
  | (kind, team) :: _ =>
    if String.eqb kind "TEAM" then
      (if bool_decide (is_Some (GITHUB_SLACK_MAP !! PyStr.lower team))
       then [] else [slack_message team])
      ++ (if bool_decide (is_Some (GITHUB_JIRA_MAP !! PyStr.lower team))
          then [] else [jira_message team])
    else []
  | [] => []
  end.

(** The first owner of the path is a team that one of the maps lacks. *)
Definition path_gap (GITHUB_SLACK_MAP GITHUB_JIRA_MAP : gmap string string)
    (path : path_entry) : bool :=
  match path_owners path with
  | (kind, team) :: _ =>
    String.eqb kind "TEAM"
    && (negb (bool_decide (is_Some (GITHUB_SLACK_MAP !! PyStr.lower team)))
        || negb (bool_decide (is_Some (GITHUB_JIRA_MAP !! PyStr.lower team))))
  | [] => false
  end.

(** The items of the loaded dict are strings. *)
Definition string_item (kv : yaml * yaml) : bool :=
  is_ystr (fst kv) && is_ystr (snd kv).

(** The keys of [failed_tests] are tests named by a string without a slash,
    and the record stored under a key carries the name of the key. *)
Definition parents_only (ft : gmap (pykey * pykey) Test) : Prop :=
  forall pk nk t, ft !! (pk, nk) = Some t ->
  exists s, nk = KStr s /\ test_name t = JStr s /\ mem_char "/" s = false.

(** ** What a line does to the failed tests *)

(** The change a line makes to [failed_tests]: none, the record of a failed
    test under a key, or the removal of a key. *)
Inductive effect : Type :=
| Keep
| Put (key : pykey * pykey) (t : Test)
| Del (key : pykey * pykey).

Definition apply_effect (e : effect) (failed_tests : gmap (pykey * pykey) Test)
  : gmap (pykey * pykey) Test :=
  match e with
  | Keep => failed_tests
  | Put key t => <[key := t]> failed_tests
  | Del key => delete key failed_tests
  end.

(** The change [process_line] makes, which depends on the line alone. *)
Definition line_effect (l : line) : result effect :=
  json_test ← json_loads l;
  has_test ← py_in "Test" json_test;
  if has_test : bool then
    name ← getitem json_test "Test";
    package ← getitem json_test "Package";
    action ← getitem json_test "Action";
    if json_eq_str action "fail" then
      subtest ← py_in "/" name;
      if subtest : bool then Ok Keep
      else
        key ← tuple_key package name;
        Ok (Put key (mkTest name package))
    else if json_eq_str action "pass" then
      key ← tuple_key package name;
      Ok (Del key)
    else Ok Keep
  else Ok Keep.

Fixpoint line_effects (lines : list line) : result (list effect) :=
  match lines with
  | [] => Ok []
  | l :: rest =>
    e ← line_effect l;
    es ← line_effects rest;
    Ok (e :: es)
  end.

Definition apply_effects (es : list effect) (failed_tests : gmap (pykey * pykey) Test)
  : gmap (pykey * pykey) Test :=
  fold_left (fun m e => apply_effect e m) es failed_tests.

(** What an effect does to the key [k]: [Some (Some t)] stores [t],
    [Some None] removes the key, [None] leaves it. *)
Definition effect_on (k : pykey * pykey) (e : effect) : option (option Test) :=
  match e with
  | Keep => None
  | Put key t => if decide (key = k) then Some (Some t) else None
  | Del key => if decide (key = k) then Some None else None
  end.

(** The last effect of the list on the key [k]. *)
Fixpoint last_effect_on (k : pykey * pykey) (es : list effect) : option (option Test) :=
  match es with
  | [] => None
  | e :: rest =>
    match last_effect_on k rest with
    | Some r => Some r
    | None => effect_on k e
    end
  end.

(** A line that the parser passes over: an object without the key [Test], or
    an object with the keys [Test], [Package] and [Action] whose action is
    neither [fail] nor [pass], or is [fail] for a name with a slash. *)
Definition passed_over (l : line) : bool :=
  match l with
  | Decoded (JObj fields) =>
    match assoc "Test" fields with
    | None => true
    | Some name =>
      match assoc "Package" fields, assoc "Action" fields with
      | Some _, Some action =>
        if json_eq_str action "fail"
        then match name with JStr n => mem_char "/" n | _ => false end
        else negb (json_eq_str action "pass")
      | _, _ => false
      end
    end
  | _ => false
  end.

(** ** The other exceptions and more string operations *)

(** The exceptions of the linter tasks and of the helpers of the
    notifications, beside those of [exn]. *)
Inductive exception : Type :=
| Builtin (e : exn)
| AttributeError
| IndexError
| AssertionError (msg : string)
| RuntimeError (msg : string)
| Exit (code : Z).

Inductive outcome (A : Type) : Type :=
| Return (a : A)
| Throw (e : exception).
Arguments Return {A} a.
Arguments Throw {A} e.

#[global] Instance outcome_ret : MRet outcome := fun A a => Return a.
#[global] Instance outcome_bind : MBind outcome := fun A B k r =>
  match r with
  | Return a => k a
  | Throw e => Throw e
  end.

Definition lift {A : Type} (r : result A) : outcome A :=
  match r with
  | Ok a => Return a
  | Raise e => Throw (Builtin e)
  end.

(** The characters of a [str], as the iteration over it gives them. *)
Fixpoint str_chars (s : string) : list string :=
  match s with
  | EmptyString => []
  | String c s' => String c EmptyString :: str_chars s'
  end.

(** [s.split(sep)] for a separator of one character. *)
Fixpoint str_split (sep : ascii) (s : string) : list string :=
  match s with
  | EmptyString => [EmptyString]
  | String c s' =>
    if Ascii.eqb c sep then EmptyString :: str_split sep s'
    else
      match str_split sep s' with
      | first :: rest => String c first :: rest
      | [] => [String c EmptyString]
      end
  end.

(** [s.startswith(prefixes)] for a tuple of prefixes. *)
Definition str_startswith_any (s : string) (prefixes : list string) : bool :=
  existsb (fun p => String.prefix p s) prefixes.

(** [c.isspace()] for a character below 256: the controls 9 to 13 and 28 to
    31, the space, the next-line control 133 and the no-break space 160.  A
    character of a [string] stands for the code point of its number. *)
Definition is_space (c : ascii) : bool :=
  let n := nat_of_ascii c in
  ((9 <=? n)%nat && (n <=? 13)%nat) || ((28 <=? n)%nat && (n <=? 32)%nat)
  || (n =? 133)%nat || (n =? 160)%nat.

(** [s.lstrip()] *)
Fixpoint str_lstrip (s : string) : string :=
  match s with
  | EmptyString => EmptyString
  | String c s' => if is_space c then str_lstrip s' else s
  end.

(** [s.rstrip()] *)
Fixpoint str_rstrip (s : string) : string :=
  match s with
  | EmptyString => EmptyString
  | String c s' =>
    match str_rstrip s' with
    | EmptyString => if is_space c then EmptyString else String c EmptyString
    | String c' r => String c (String c' r)
    end
  end.

(** [s.strip()] *)
Definition str_strip (s : string) : string := str_rstrip (str_lstrip s).

(** ** The helpers of the notifications *)

(** [get_git_author]: [output] is the decoded output of [git show]. *)
Definition get_git_author (output : string) : string :=
  PyStr.replace (str_strip output) "'" EmptyString.

(** [email_to_slackid]: [stdout] is the output of the lookup command. *)
Definition email_to_slackid (stdout : string) : outcome string :=
  let slackid := str_strip stdout in
  if String.eqb slackid EmptyString then Throw (AssertionError "Email not found")
  else Return slackid.

(** ** The check of the file names *)

(** The characters [<>:], the double quote, the backslash and [|?*]. *)
Definition forbidden_chars : string := "<>:" +:+ String (ascii_of_nat 34) "\|?*".

Definition has_forbidden_char (filename : string) : bool :=
  existsb (fun char => PyStr.contains char filename) (str_chars forbidden_chars).

Definition long_path_prefixes : list string :=
  ["test/kitchen/"; "tools/windows/DatadogAgentInstaller"; "test/workload-checks";
   "test/regression"].

Definition illegal_message (filename : string) : string :=
  "Error: Found illegal character in path " +:+ filename.

Definition too_long_message (prefix_length max_length : nat) (filename : string) : string :=
  "Error: path " +:+ filename +:+ " is too long ("
    +:+ pretty.pretty (prefix_length + String.length filename - max_length)
    +:+ " characters too many)".

(** The task [filenames]: [win32] tells whether [sys.platform] is [win32],
    [stdout] is the output of [git ls-files -z].  The result is the lines
    printed and the end of the task, [Exit(code=1)] on a failure. *)
Definition filenames (win32 : bool) (stdout : string) : list string * outcome unit :=
  let files := str_split Ascii.zero stdout in
  let failure := false in
  let '(failure, printed) :=
    if win32 then
      (failure, ["Running on windows, no need to check filenames for illegal characters"])
    else
      fold_left
        (fun '(failure, printed) filename =>
           if has_forbidden_char filename
           then (true, printed ++ [illegal_message filename])
           else (failure, printed))
        files (failure, ["Checking filenames for illegal characters"]) in
  let printed := printed ++ ["Checking filename length"] in
  let prefix_length := 160 in
  let max_length := 255 in
  let '(failure, printed) :=
    fold_left
      (fun '(failure, printed) filename =>
         if negb (str_startswith_any filename long_path_prefixes)
            && (max_length <? prefix_length + String.length filename)%nat
         then (true, printed ++ [too_long_message prefix_length max_length filename])
         else (failure, printed))
      files (failure, printed) in
  (printed, if failure then Throw (Exit 1) else Return tt).

(** The path is longer than 95 characters and is not under one of the
    directories left out of the check. *)
Definition too_long (filename : string) : bool :=
  negb (str_startswith_any filename long_path_prefixes)
  && (95 <? String.length filename)%nat.

(** Every occurrence of the character [c] in [s] replaced by [new]. *)
Fixpoint replace_char (c : ascii) (new s : string) : string :=
  match s with
  | EmptyString => EmptyString
  | String d s' =>
    if Ascii.eqb d c then new +:+ replace_char c new s'
    else String d (replace_char c new s')
  end.

Fixpoint all_space (s : string) : bool :=
  match s with
  | EmptyString => true
  | String c s' => is_space c && all_space s'
  end.

(** ** The check of the change paths *)

(** The elements a [for] loop takes from a value: the items of a list, the
    characters of a string, the keys of a dict; the other values are not
    iterable. *)
Definition iterate (j : json) : result (list json) :=
  match j with
  | JArr items => Ok items
  | JStr s => Ok (List.map JStr (str_chars s))
  | JObj fields => Ok (List.map (fun kv => JStr (fst kv)) fields)
  | _ => Raise TypeError
  end.

(** The prefixes [test/], [./test/] and the same two with backslashes. *)
Definition test_path_prefixes : list string :=
  ["test/"; "./test/"; "test\"; ".\test\"].

(** [any(not path.startswith(...) for path in paths)]: the paths are read up
    to the first that is outside the test directories; a path that is not a
    string has no [startswith]. *)
Fixpoint any_path_outside_test (paths : list json) : outcome bool :=
  match paths with
  | [] => Return false
  | JStr path :: rest =>
    if negb (str_startswith_any path test_path_prefixes) then Return true
    else any_path_outside_test rest
  | _ :: _ => Throw AttributeError
  end.

(** The local function [contains_valid_change_rule] of [test_change_path]. *)
Definition contains_valid_change_rule (rule : json) : outcome bool :=
  has_changes ← lift (py_in "changes" rule);
  if negb has_changes then Return false
  else
    changes ← lift (getitem rule "changes");
    has_paths ← lift (py_in "paths" changes);
    if negb has_paths then Return false
    else
      changes ← lift (getitem rule "changes");
      paths ← lift (getitem changes "paths");
      items ← lift (iterate paths);
      any_path_outside_test items.

Definition is_dict (j : json) : bool :=
  match j with
  | JObj _ => true
  | _ => false
  end.

(** [any(contains_valid_change_rule(rule) for rule in rules
    if isinstance(rule, dict))] *)
Fixpoint any_valid_rule (rules : list json) : outcome bool :=
  match rules with
  | [] => Return false
  | rule :: rest =>
    if is_dict rule then
      valid ← contains_valid_change_rule rule;
      if valid : bool then Return true else any_valid_rule rest
    else any_valid_rule rest
  end.

(** The list [tests]: the jobs of [test_config] whose name does not begin
    with a dot, each with its [_file_path].  [test_config] is given by its
    items. *)
Fixpoint collect_tests (test_config : list (string * json)) : outcome (list (string * json)) :=
  match test_config with
  | [] => Return []
  | (test, data) :: rest =>
    match test with
    | EmptyString => Throw IndexError
    | String c _ =>
      if negb (Ascii.eqb c ".") then
        file_path ← lift (getitem data "_file_path");
        more ← collect_tests rest;
        Return ((test, file_path) :: more)
      else collect_tests rest
    end
  end.

(** The loop that fills [tests_without_change_path]. *)
Fixpoint check_tests (config : json) (tests : list (string * json))
    (tests_without_change_path : gmap pykey (list string))
  : outcome (gmap pykey (list string)) :=
  match tests with
  | [] => Return tests_without_change_path
  | (test, filepath) :: rest =>
    job ← lift (getitem config test);
    rules ← lift (getitem job "rules");
    items ← lift (iterate rules);
    valid ← any_valid_rule items;
    if valid : bool then check_tests config rest tests_without_change_path
    else
      key ← lift (hash_key filepath);
      check_tests config rest
        (<[key := default [] (tests_without_change_path !! key) ++ [test]]>
           tests_without_change_path)
  end.

(** The task [test_change_path]: [config] is the full configuration,
    [test_config] the items of the configuration of the job files.  The
    result is the end of the task; the lines it prints are left out. *)
Definition test_change_path (config : json) (test_config : list (string * json))
  : outcome unit :=
  tests ← collect_tests test_config;
  tests_without_change_path ← check_tests config tests ∅;
  if negb (Nat.eqb (size tests_without_change_path) 0) then
    Throw (RuntimeError
             "Some tests do not contain required change paths rule, they must contain at least one non-test path.")
  else Return tt.

(** The name of the job begins with a dot. *)
Definition is_template (test : string) : bool :=
  match test with
  | String c _ => Ascii.eqb c "."
  | EmptyString => false
  end.

(** ** The check of the SSM parameters *)

(** The patterns of the check, matched as [re] does: each piece of a pattern
    takes what it matches from the start of the string and hands the rest to
    the continuation [k]; a greedy repetition takes the longest run first and
    gives back one character at a time while the continuation fails. *)


(** A literal piece of a pattern. *)
Fixpoint re_lit {A : Type} (lit : string) (k : string -> option A) (s : string) : option A :=
  match lit with
  | EmptyString => k s
  | String c lit' =>
    match s with
    | String d s' => if Ascii.eqb c d then re_lit lit' k s' else None
    | EmptyString => None
    end
  end.

(** One character of the class [p]. *)
Definition re_one {A : Type} (p : ascii -> bool) (k : string -> option A) (s : string)
  : option A :=
  match s with
  | String c s' => if p c then k s' else None
  | EmptyString => None
  end.

(** The class [p] followed by a star. *)
Fixpoint re_star {A : Type} (p : ascii -> bool) (k : string -> option A) (s : string)
  : option A :=
  match s with
  | String c s' =>
    if p c then
      match re_star p k s' with
      | Some r => Some r
      | None => k s
      end
    else k s
  | EmptyString => k s
  end.

(** The class [p] followed by a plus. *)
Definition re_plus {A : Type} (p : ascii -> bool) (k : string -> option A) (s : string)
  : option A :=
  match s with
  | String c s' => if p c then re_star p k s' else None
  | EmptyString => None
  end.

(** A group made of the class [p] followed by a star: the continuation gets
    the text of the group. *)
Fixpoint re_star_group {A : Type} (p : ascii -> bool) (k : string -> string -> option A)
    (s : string) : option A :=
  match s with
  | String c s' =>
    if p c then
      match re_star_group p (fun g rest => k (String c g) rest) s' with
      | Some r => Some r
      | None => k EmptyString s
      end
    else k EmptyString s
  | EmptyString => k EmptyString s
  end.

(** A group made of the class [p] followed by a plus. *)
Definition re_plus_group {A : Type} (p : ascii -> bool) (k : string -> string -> option A)
    (s : string) : option A :=
  match s with
  | String c s' => if p c then re_star_group p (fun g rest => k (String c g) rest) s' else None
  | EmptyString => None
  end.

(** The end anchor. *)
Definition re_end {A : Type} (r : A) (s : string) : option A :=
  if at_end s then Some r else None.

(** The dot: every character but the newline. *)
Definition re_dot (c : ascii) : bool := negb (Ascii.eqb c newline).

Definition is_blank (c : ascii) : bool := Ascii.eqb c " ".

(** [ssm_get.match(s)]: a dot-plus, [ssm], a dot, [get], a dot-plus, the
    end. *)
Definition ssm_get (s : string) : option unit :=
  re_plus re_dot (re_lit "ssm" (re_one re_dot (re_lit "get" (re_plus re_dot (re_end tt))))) s.

(** [aws_ssm_call.match(s)]: a dot-plus, [ssm get-parameter], a dot-plus,
    [--name], blanks, the group [param] of characters that are not blanks, a
    dot-star, the end.  The result is the group [param]. *)
Definition aws_ssm_call (s : string) : option string :=
  re_plus re_dot
    (re_lit "ssm get-parameter"
       (re_plus re_dot
          (re_lit "--name"
             (re_plus is_blank
                (re_plus_group (fun c => negb (is_blank c))
                   (fun param => re_star re_dot (re_end param))))))) s.

(** [ssm_wrapper_call.match(s)]: a dot-plus, [aws_ssm_get_wrapper], a dot,
    [sh] or else [ps1], blanks, the group [param] of characters that are
    neither blanks nor closing parentheses, a dot-star, the end. *)
Definition ssm_wrapper_call (s : string) : option string :=
  let args :=
    re_plus is_blank
      (re_plus_group (fun c => negb (is_blank c) && negb (Ascii.eqb c ")"))
         (fun param => re_star re_dot (re_end param))) in
  re_plus re_dot
    (re_lit "aws_ssm_get_wrapper"
       (re_one re_dot
          (fun rest =>
             match re_lit "sh" args rest with
             | Some r => Some r
             | None => re_lit "ps1" args rest
             end))) s.

Record SSMParameterCall : Type := mkSSMParameterCall {
  ssm_file : string;
  line_nb : nat;
  with_wrapper : bool;
  with_env_var : bool
}.

(** [SSMParameterCall.__str__] *)
Definition ssm_call_str (call : SSMParameterCall) : string :=
  let message := EmptyString in
  let message :=
    if negb (with_wrapper call)
    then message +:+ "Please use the dedicated `aws_ssm_get_wrapper.(sh|ps1)`."
    else message in
  let message :=
    if negb (with_env_var call)
    then message +:+ " Save your parameter name as environment variable in .gitlab-ci.yml file."
    else message in
  ssm_file call +:+ ":" +:+ pretty.pretty (line_nb call + 1) +:+ ". " +:+ message.

(** What the iteration over the open file gives: a line, or the
    [UnicodeDecodeError] of a file that is not text. *)
Inductive read : Type :=
| Line (text : string)
| DecodeError.

(** The loop of [is_get_parameter_call], from the line of number [nb]. *)
Fixpoint scan_lines (file : string) (nb : nat) (lines : list read) : option SSMParameterCall :=
  match lines with
  | [] => None
  | DecodeError :: _ => None
  | Line line :: rest =>
    match ssm_get (str_strip line) with
    | Some _ =>
      match aws_ssm_call (str_strip line) with
      | Some param =>
        Some (mkSSMParameterCall file nb false (String.prefix "$" param))
      | None =>
        match ssm_wrapper_call (str_strip line) with
        | Some param =>
          if negb (String.prefix "$" param)
          then Some (mkSSMParameterCall file nb true false)
          else scan_lines file (S nb) rest
        | None => scan_lines file (S nb) rest
        end
      end
    | None => scan_lines file (S nb) rest
    end
  end.

(** [is_get_parameter_call(file)]: [lines] is what the file gives when it
    is read. *)
Definition is_get_parameter_call (file : string) (lines : list read) : option SSMParameterCall :=
  scan_lines file 0 lines.

Definition lint_folders : list string := [".circleci"; ".github"; ".gitlab"; "tasks"; "test"].

(** The task [ssm_parameters]: [stdout] is the output of [git ls-files],
    [read_file] gives what each file holds (a listed file is taken to be
    there to open).  The result is the lines printed and the end of the
    task. *)
Definition ssm_parameters (stdout : string) (read_file : string -> list read)
  : list string * outcome unit :=
  let error_files :=
    fold_left
      (fun error_files filename =>
         if existsb (fun f => String.prefix f filename) lint_folders then
           match is_get_parameter_call filename (read_file filename) with
           | Some matched => error_files ++ [matched]
           | None => error_files
           end
         else error_files)
      (str_split newline stdout) [] in
  match error_files with
  | [] => ([], Return tt)
  | _ :: _ =>
    ("The following files contain unexpected syntax for aws ssm get-parameter:"
       :: List.map (fun filename => "  - " +:+ ssm_call_str filename) error_files,
     Throw (Exit 1))
  end.

(** ** The list of the SSM parameters *)

Definition is_upper (c : ascii) : bool :=
  let n := nat_of_ascii c in (65 <=? n)%nat && (n <=? 90)%nat.

(** [ssm_owner.match(s)]: a capital, a dot-star, [_SSM_], [NAME] or else
    [KEY], a colon and a blank, the group [param] of characters that are not
    blanks, blanks, a hash sign, blanks, the group [owner] that is a dot-plus,
    the end.  The result is the pair of [param] and [owner]. *)
Definition ssm_owner (s : string) : option (string * string) :=
  let tail :=
    re_lit ": "
      (re_plus_group (fun c => negb (is_blank c))
         (fun param =>
            re_plus is_blank
              (re_lit "#"
                 (re_plus is_blank
                    (re_plus_group re_dot (fun owner => re_end (param, owner))))))) in
  re_one is_upper
    (re_star re_dot
       (re_lit "_SSM_"
          (fun rest =>
             match re_lit "NAME" tail rest with
             | Some r => Some r
             | None => re_lit "KEY" tail rest
             end))) s.

(** [ssm_params[owner].append(param)] on a [defaultdict(list)], given by its
    items in the order of insertion. *)
Fixpoint append_param (owner param : string) (ssm_params : list (string * list string))
  : list (string * list string) :=
  match ssm_params with
  | [] => [(owner, [param])]
  | (o, params) :: rest =>
    if String.eqb o owner then (o, params ++ [param]) :: rest
    else (o, params) :: append_param owner param rest
  end.

(** The dict [ssm_params] of [list_ssm_parameters] after the lines of
    [.gitlab-ci.yml]. *)
Definition collect_ssm_params (lines : list string) : list (string * list string) :=
  fold_left
    (fun ssm_params line =>
       match ssm_owner (str_strip line) with
       | Some (param, owner) => append_param owner param ssm_params
       | None => ssm_params
       end)
    lines [].

(** The task [list_ssm_parameters]: the lines it prints. *)
Definition list_ssm_parameters (lines : list string) : list string :=
  flat_map
    (fun '(owner, params) =>
       ("Owner:" +:+ owner) :: List.map (fun param => "  - " +:+ param) params)
    (collect_ssm_params lines).

(** The parameters of the lines that name the owner, in the order of the
    lines. *)
Definition params_of (owner : string) (lines : list string) : list string :=
  omap (fun line =>
          match ssm_owner (str_strip line) with
          | Some (param, o) => if String.eqb o owner then Some param else None
          | None => None
          end) lines.

(** The parameters the dict holds for the owner, none when it does not hold
    the owner. *)
Definition group_params (owner : string) (ssm_params : list (string * list string))
  : list string :=
  match List.find (fun g => String.eqb (fst g) owner) ssm_params with
  | Some g => snd g
  | None => []
  end.

(** * Properties *)

(** ** Strings *)

#[local] Arguments String.append !_ _ / : simpl nomatch.

Lemma append_nil_r (s : string) : s +:+ EmptyString = s.
Proof. induction s as [|c s IH]; simpl; [reflexivity | now rewrite IH]. Qed.

Lemma append_assoc (a b c : string) : (a +:+ b) +:+ c = a +:+ b +:+ c.
Proof. induction a as [|x a IH]; simpl; [reflexivity | now rewrite IH]. Qed.

Lemma mem_char_app (c : ascii) (a b : string) :
  mem_char c (a +:+ b) = mem_char c a || mem_char c b.
Proof.
  induction a as [|x a IH]; simpl; [reflexivity|].
  rewrite IH. now rewrite orb_assoc.
Qed.

Lemma digit_not_special (c : ascii) :
  is_digit c = true ->
  Ascii.eqb c "("%char = false /\ Ascii.eqb c ")"%char = false
  /\ Ascii.eqb c "#"%char = false /\ Ascii.eqb c newline = false.
Proof.
  intros Hd. repeat split.
  all: destruct (Ascii.eqb_spec c "("%char) as [->|]; try discriminate Hd;
       destruct (Ascii.eqb_spec c ")"%char) as [->|]; try discriminate Hd;
       destruct (Ascii.eqb_spec c "#"%char) as [->|]; try discriminate Hd;
       destruct (Ascii.eqb_spec c newline) as [->|]; try discriminate Hd;
       reflexivity.
Qed.

Lemma all_digits_no_char (c : ascii) (ds : string) :
  is_digit c = false -> all_digits ds = true -> mem_char c ds = false.
Proof.
  intros Hc. induction ds as [|d ds IH]; simpl; [reflexivity|].
  intros [Hd Hds]%andb_prop. rewrite (IH Hds), orb_false_r.
  destruct (Ascii.eqb_spec d c) as [->|]; [congruence | reflexivity].
Qed.

Lemma at_end_cases (s : string) :
  at_end s = true <-> s = EmptyString \/ s = String newline EmptyString.
Proof.
  destruct s as [|c [|c' s]]; simpl.
  - split; [now left | reflexivity].
  - split.
    + intros ->%Ascii.eqb_eq. now right.
    + intros [H|H]; [discriminate | injection H as ->; apply Ascii.eqb_refl].
  - split; [discriminate | intros [H|H]; discriminate].
Qed.

(** ** The pattern of [get_pr_from_commit] *)

Lemma match_digits_close_complete (ds rest : string) :
  all_digits ds = true -> at_end rest = true ->
  match_digits_close (ds +:+ String ")" rest) = Some ds.
Proof.
  intros Hds Hrest. induction ds as [|d ds IH]; simpl.
  - now rewrite Hrest.
  - simpl in Hds. apply andb_prop in Hds as [Hd Hds].
    rewrite Hd, (IH Hds). reflexivity.
Qed.

Lemma match_digits_close_sound (s ds : string) :
  match_digits_close s = Some ds ->
  all_digits ds = true /\ exists rest, s = ds +:+ String ")" rest /\ at_end rest = true.
Proof.
  revert ds. induction s as [|c s IH]; intros ds; simpl; [discriminate|].
  assert (Hshort :
    (if Ascii.eqb c ")"%char then if at_end s then Some EmptyString else None else None)
      = Some ds ->
    all_digits ds = true
    /\ exists rest, String c s = ds +:+ String ")" rest /\ at_end rest = true).
  { destruct (Ascii.eqb_spec c ")"%char) as [->|]; [|discriminate].
    destruct (at_end s) eqn:He; [|discriminate].
    intros [= <-]. split; [reflexivity|]. exists s. now split. }
  destruct (is_digit c) eqn:Hd; [|exact Hshort].
  destruct (match_digits_close s) as [ds'|] eqn:Hm; [|exact Hshort].
  intros [= <-]. destruct (IH ds' eq_refl) as (Hds' & rest & -> & Hrest).
  split; [simpl; now rewrite Hd|]. exists rest. now split.
Qed.

Lemma match_tail_complete (ds rest : string) :
  all_digits ds = true -> at_end rest = true ->
  match_tail ("(#" +:+ ds +:+ String ")" rest) = Some ds.
Proof. intros. simpl. now apply match_digits_close_complete. Qed.

Lemma match_tail_sound (s ds : string) :
  match_tail s = Some ds ->
  all_digits ds = true /\ exists rest, s = "(#" +:+ ds +:+ String ")" rest /\ at_end rest = true.
Proof.
  destruct s as [|c1 [|c2 s]]; simpl; try discriminate.
  - destruct c1 as [[] [] [] [] [] [] [] []]; discriminate.
  - intros H.
    assert (c1 = "("%char /\ c2 = "#"%char /\ match_digits_close s = Some ds) as (-> & -> & Hm).
    { destruct c1 as [[] [] [] [] [] [] [] []]; try discriminate H;
      destruct c2 as [[] [] [] [] [] [] [] []]; try discriminate H; auto. }
    destruct (match_digits_close_sound _ _ Hm) as (Hds & rest & -> & Hrest).
    split; [assumption|]. exists rest. now split.
Qed.

Lemma match_tail_open (s : string) :
  mem_char "("%char s = false -> match_tail s = None.
Proof.
  destruct s as [|c s]; [reflexivity|]. simpl.
  intros [Hc _]%orb_false_elim.
  destruct c as [[] [] [] [] [] [] [] []]; try reflexivity; discriminate Hc.
Qed.

Lemma match_here_open (s : string) :
  mem_char "("%char s = false -> match_here s = None.
Proof.
  induction s as [|c s IH]; [reflexivity|].
  intros H. pose proof (match_tail_open _ H) as Ht.
  simpl in H. apply orb_false_elim in H as [_ Hs].
  cbn [match_here]. rewrite (IH Hs), Ht. now destruct (Ascii.eqb c newline).
Qed.

(** After the opening parenthesis of a match of the tail there is no other. *)
Lemma match_tail_rest_open (c : ascii) (s ds : string) :
  match_tail (String c s) = Some ds -> mem_char "("%char s = false.
Proof.
  intros (Hds & rest & Heq & Hrest)%match_tail_sound.
  simpl in Heq. injection Heq as -> ->.
  simpl. rewrite mem_char_app. rewrite (all_digits_no_char "("%char ds eq_refl Hds). simpl.
  apply at_end_cases in Hrest as [-> | ->]; reflexivity.
Qed.

Lemma match_here_tail (t ds : string) :
  match_tail t = Some ds -> match_here t = Some ds.
Proof.
  intros Ht. destruct t as [|c t]; [discriminate Ht|].
  pose proof (match_tail_rest_open _ _ _ Ht) as Hopen.
  cbn [match_here]. rewrite (match_here_open _ Hopen), Ht.
  now destruct (Ascii.eqb c newline).
Qed.

Lemma match_here_unique (t ds : string) :
  match_tail t = Some ds ->
  forall pre x, match_here (pre +:+ t) = Some x -> x = ds.
Proof.
  intros Ht. induction pre as [|c pre IH]; intros x.
  - simpl. rewrite (match_here_tail _ _ Ht). congruence.
  - cbn [String.append match_here].
    assert (Hno : match_tail (String c (pre +:+ t)) = None).
    { destruct (match_tail (String c (pre +:+ t))) as [y|] eqn:Hy; [|reflexivity].
      apply match_tail_rest_open in Hy. rewrite mem_char_app in Hy.
      apply orb_false_elim in Hy as [_ Hy].
      rewrite (match_tail_open _ Hy) in Ht. discriminate. }
    rewrite Hno. destruct (Ascii.eqb c newline); [discriminate|].
    destruct (match_here (pre +:+ t)) as [y|] eqn:Hy; [|discriminate].
    intros [= <-]. now apply IH.
Qed.

Lemma re_search_complete (t ds : string) :
  match_tail t = Some ds -> forall pre, re_search (pre +:+ t) = Some ds.
Proof.
  intros Ht. induction pre as [|c pre IH].
  - simpl. destruct t as [|c t]; [discriminate Ht|].
    cbn [re_search]. now rewrite (match_here_tail _ _ Ht).
  - cbn [String.append re_search].
    destruct (match_here (String c (pre +:+ t))) as [x|] eqn:Hx; [|exact IH].
    f_equal. exact (match_here_unique _ _ Ht (String c pre) x Hx).
Qed.

Lemma match_here_sound (s ds : string) :
  match_here s = Some ds -> exists pre t, s = pre +:+ t /\ match_tail t = Some ds.
Proof.
  induction s as [|c s IH]; [discriminate|]. cbn [match_here].
  assert (Hhere : match_tail (String c s) = Some ds ->
                  exists pre t, String c s = pre +:+ t /\ match_tail t = Some ds).
  { intros H. exists EmptyString, (String c s). now split. }
  destruct (Ascii.eqb c newline); [exact Hhere|].
  destruct (match_here s) as [y|]; [|exact Hhere].
  intros [= <-]. destruct (IH eq_refl) as (pre & t & -> & Ht).
  exists (String c pre), t. now split.
Qed.

Lemma re_search_sound (s ds : string) :
  re_search s = Some ds -> exists pre t, s = pre +:+ t /\ match_tail t = Some ds.
Proof.
  induction s as [|c s IH].
  - simpl. discriminate.
  - cbn [re_search]. destruct (match_here (String c s)) as [y|] eqn:Hy.
    + intros [= <-]. now apply match_here_sound.
    + intros (pre & t & -> & Ht)%IH. exists (String c pre), t. now split.
Qed.

(** The search finds the digits [ds] exactly on the titles that end with the
    reference to the pull request [ds]. *)
Lemma re_search_trailing_pr (title ds : string) :
  re_search title = Some ds <-> trailing_pr title ds.
Proof.
  split.
  - intros (pre & t & -> & (Hds & rest & -> & Hrest)%match_tail_sound)%re_search_sound.
    split; [assumption|]. exists pre.
    apply at_end_cases in Hrest as [-> | ->]; [left | right]; reflexivity.
  - intros (Hds & pre & [-> | ->]).
    + apply re_search_complete. now apply match_tail_complete.
    + apply re_search_complete. now apply match_tail_complete.
Qed.

Lemma re_search_none (title : string) :
  re_search title = None <-> forall ds, ~ trailing_pr title ds.
Proof.
  split.
  - intros Hn ds Hds%re_search_trailing_pr. congruence.
  - intros Hn. destruct (re_search title) as [ds|] eqn:Hs; [|reflexivity].
    now apply re_search_trailing_pr, Hn in Hs.
Qed.

(** ** Replacing the reference by a link *)

Lemma prefix_nil (s : string) : String.prefix EmptyString s = true.
Proof. now destruct s. Qed.

Lemma prefix_append (a b : string) : String.prefix a (a +:+ b) = true.
Proof.
  induction a as [|c a IH]; simpl; [apply prefix_nil|].
  destruct (ascii_dec c c); [exact IH | congruence].
Qed.

Lemma prefix_head_ne (c d : ascii) (a s : string) :
  Ascii.eqb d c = false -> String.prefix (String c a) (String d s) = false.
Proof.
  intros Hne. simpl. destruct (ascii_dec c d) as [->|]; [|reflexivity].
  now rewrite Ascii.eqb_refl in Hne.
Qed.

Lemma replace_go_skip (old new a rest : string) :
  PyStr.replace_go old new (String.length a) (a +:+ rest) = PyStr.replace_go old new 0 rest.
Proof. induction a as [|c a IH]; simpl; [reflexivity | exact IH]. Qed.

(** Up to the first hash sign nothing is replaced. *)
Lemma replace_go_before (c : ascii) (old new pre rest : string) :
  mem_char c pre = false ->
  PyStr.replace_go (String c old) new 0 (pre +:+ rest)
  = pre +:+ PyStr.replace_go (String c old) new 0 rest.
Proof.
  induction pre as [|d pre IH]; [reflexivity|].
  simpl mem_char. intros [Hd Hpre]%orb_false_elim.
  cbn [String.append PyStr.replace_go].
  rewrite (prefix_head_ne _ _ _ _ Hd), (IH Hpre). reflexivity.
Qed.

Lemma replace_go_occurrence (old new rest : string) (c : ascii) :
  PyStr.replace_go (String c old) new 0 (String c old +:+ rest)
  = new +:+ PyStr.replace_go (String c old) new 0 rest.
Proof.
  cbn [String.append PyStr.replace_go].
  change (String c (old +:+ rest)) with (String c old +:+ rest).
  rewrite prefix_append. f_equal.
  replace (String.length (String c old) - 1) with (String.length old)
    by (cbn [String.length]; lia).
  apply replace_go_skip.
Qed.

(** Replacing the hash sign alone replaces every hash sign. *)
Lemma replace_hash (link s : string) :
  PyStr.replace s "#" link = wrap_hashes link s.
Proof.
  unfold PyStr.replace. induction s as [|c s IH]; [reflexivity|].
  cbn [PyStr.replace_go wrap_hashes String.prefix String.length Nat.sub].
  destruct (ascii_dec "#"%char c) as [<-|Hne].
  - rewrite prefix_nil. simpl Ascii.eqb. cbv iota. now rewrite IH.
  - destruct (Ascii.eqb_spec c "#"%char) as [->|]; [congruence|]. now rewrite IH.
Qed.

Lemma pr_link_eq (project_title : option string) (ds : string) :
  "<" +:+ (DATADOG_AGENT_GITHUB_ORG_URL +:+ "/" +:+ PyStr.fmt project_title +:+ "/pull/" +:+ ds)
    +:+ "|#" +:+ ds +:+ ">"
  = pr_link project_title ds.
Proof.
  unfold pr_link, DATADOG_AGENT_GITHUB_ORG_URL.
  simpl. rewrite !append_assoc. reflexivity.
Qed.

Lemma enhanced_commit_title_found (title ds : string) (project_title : option string) :
  re_search title = Some ds ->
  enhanced_commit_title title project_title
  = PyStr.replace title ("#" +:+ ds) (pr_link project_title ds).
Proof.
  intros Hs. unfold enhanced_commit_title, get_pr_from_commit. rewrite Hs.
  now rewrite pr_link_eq.
Qed.

(** The message is the header line followed by the enhanced title and the
    links of the commit. *)
Lemma base_message_title (env : environ) (author header state : string) :
  exists before after,
    base_message env author header state
    = before +:+ enhanced_commit_title (default EmptyString (CI_COMMIT_TITLE env))
                   (CI_PROJECT_TITLE env) +:+ after.
Proof.
  eexists (header +:+ " pipeline <" +:+ PyStr.fmt (CI_PIPELINE_URL env) +:+ "|"
           +:+ PyStr.fmt (CI_PIPELINE_ID env) +:+ "> for "
           +:+ PyStr.fmt (CI_COMMIT_REF_NAME env) +:+ " " +:+ state +:+ "."
           +:+ String newline EmptyString), _.
  unfold base_message. rewrite !append_assoc. simpl. reflexivity.
Qed.

(** C7. [base_message] composes the message from the header line, the
    commit title and the links of the commit.  When the commit title ends
    with a reference [(#<digits>)] to a pull request, [get_pr_from_commit]
    returns the digits and the address
    [https://github.com/DataDog/<project>/pull/<digits>], and the message
    holds the title with [#<digits>] replaced by the same text wrapped as a
    link to that address; when the reference is the only hash sign of the
    title, that is the title with the link in the parentheses.  With a title
    without such an end (an unset title is the empty one) the message holds
    the title as it is.  The function is total: no title is an error. *)
Theorem pr_link_enhancement (env : environ) (author header state : string) :
  let title := default EmptyString (CI_COMMIT_TITLE env) in
  let project_title := CI_PROJECT_TITLE env in
  let message := fun shown_title : string =>
    header +:+ " pipeline <" +:+ PyStr.fmt (CI_PIPELINE_URL env) +:+ "|"
      +:+ PyStr.fmt (CI_PIPELINE_ID env) +:+ "> for " +:+ PyStr.fmt (CI_COMMIT_REF_NAME env)
      +:+ " " +:+ state +:+ "." +:+ String newline EmptyString
      +:+ shown_title
      +:+ " (<" +:+ PyStr.fmt (CI_PROJECT_URL env) +:+ "/commit/" +:+ PyStr.fmt (CI_COMMIT_SHA env)
      +:+ "|" +:+ PyStr.fmt (CI_COMMIT_SHORT_SHA env)
      +:+ ">)(:github: <https://github.com/DataDog/" +:+ PyStr.fmt project_title
      +:+ "/commit/" +:+ PyStr.fmt (CI_COMMIT_SHA env) +:+ "|link>) by " +:+ author in
  (forall ds, trailing_pr title ds ->
     get_pr_from_commit title project_title
     = Some (ds, "https://github.com/DataDog/" +:+ PyStr.fmt project_title +:+ "/pull/" +:+ ds)
     /\ base_message env author header state
        = message (PyStr.replace title ("#" +:+ ds) (pr_link project_title ds)))
  /\ (forall pre ds,
        title = pre +:+ "(#" +:+ ds +:+ ")" -> all_digits ds = true ->
        mem_char "#" pre = false ->
        base_message env author header state
        = message (pre +:+ "(" +:+ pr_link project_title ds +:+ ")"))
  /\ ((forall ds, ~ trailing_pr title ds) ->
      get_pr_from_commit title project_title = None
      /\ base_message env author header state = message title)
  /\ base_message
       {| CI_PROJECT_TITLE := Some "datadog-agent";
          CI_COMMIT_TITLE := Some "Fix bug (#4321)";
          CI_PIPELINE_URL := Some "https://gitlab.example/pipelines/77";
          CI_PIPELINE_ID := Some "77";
          CI_COMMIT_REF_NAME := Some "main";
          CI_PROJECT_URL := Some "https://gitlab.example/agent";
          CI_COMMIT_SHA := Some "0123abcd";
          CI_COMMIT_SHORT_SHA := Some "0123" |}
       "alice" "Failed" "failed"
     = "Failed pipeline <https://gitlab.example/pipelines/77|77> for main failed."
       +:+ String newline
             ("Fix bug (<https://github.com/DataDog/datadog-agent/pull/4321|#4321>)"
              +:+ " (<https://gitlab.example/agent/commit/0123abcd|0123>)"
              +:+ "(:github: <https://github.com/DataDog/datadog-agent/commit/0123abcd|link>)"
              +:+ " by alice").
Proof.
  intros title project_title message.
  assert (Hmsg : base_message env author header state
                 = message (enhanced_commit_title title project_title)).
  { unfold base_message, message, DATADOG_AGENT_GITHUB_ORG_URL.
    fold title. fold project_title. rewrite !append_assoc. reflexivity. }
  split; [|split; [|split]].
  - intros ds Hds%re_search_trailing_pr. split.
    + unfold get_pr_from_commit. rewrite Hds. reflexivity.
    + rewrite Hmsg. now rewrite (enhanced_commit_title_found _ _ _ Hds).
  - intros pre ds Htitle Hds Hpre. rewrite Hmsg. f_equal. rewrite Htitle.
    assert (Hs : re_search (pre +:+ "(#" +:+ ds +:+ ")") = Some ds).
    { apply re_search_trailing_pr. split; [assumption|]. exists pre. now left. }
    rewrite (enhanced_commit_title_found _ _ _ Hs).
    unfold PyStr.replace.
    change ("#" +:+ ds) with (String "#" ds).
    replace (pre +:+ "(#" +:+ ds +:+ ")")
      with ((pre +:+ "(") +:+ String "#" ds +:+ ")")
      by (rewrite append_assoc; reflexivity).
    rewrite replace_go_before.
    + rewrite replace_go_occurrence, append_assoc. reflexivity.
    + rewrite mem_char_app, Hpre. reflexivity.
  - intros Hnone%re_search_none. rewrite Hmsg.
    unfold enhanced_commit_title, get_pr_from_commit. now rewrite Hnone.
  - reflexivity.
Qed.

Lemma pr_link_enhancement_witness :
  let env :=
    {| CI_PROJECT_TITLE := Some "datadog-agent";
       CI_COMMIT_TITLE := Some "Fix bug (#4321)";
       CI_PIPELINE_URL := Some "https://gitlab.example/pipelines/77";
       CI_PIPELINE_ID := Some "77";
       CI_COMMIT_REF_NAME := Some "main";
       CI_PROJECT_URL := Some "https://gitlab.example/agent";
       CI_COMMIT_SHA := Some "0123abcd";
       CI_COMMIT_SHORT_SHA := Some "0123" |} in
  trailing_pr "Fix bug (#4321)" "4321"
  /\ get_pr_from_commit "Fix bug (#4321)" (Some "datadog-agent")
     = Some ("4321", "https://github.com/DataDog/datadog-agent/pull/4321")
  /\ base_message env "alice" "Failed" "failed"
     = "Failed pipeline <https://gitlab.example/pipelines/77|77> for main failed."
       +:+ String newline
             (PyStr.replace "Fix bug (#4321)" "#4321" (pr_link (Some "datadog-agent") "4321")
              +:+ " (<https://gitlab.example/agent/commit/0123abcd|0123>)"
              +:+ "(:github: <https://github.com/DataDog/datadog-agent/commit/0123abcd|link>)"
              +:+ " by alice").
Proof.
  intros env.
  assert (H : trailing_pr "Fix bug (#4321)" "4321").
  { split; [reflexivity|]. exists "Fix bug ". left. reflexivity. }
  split; [exact H|].
  exact (proj1 (pr_link_enhancement env "alice" "Failed" "failed") "4321" H).
Defined.

(** C10. The digits of the reference may be missing: on every commit title
    that ends with [(#)], [get_pr_from_commit] returns the empty
    pull-request id with an address that ends in [/pull/], and the message
    [base_message] composes holds the title with every hash sign replaced
    by the link wrapper, not the title as it is. *)
Theorem empty_pr_reference (env : environ) (author header state pre : string) :
  CI_COMMIT_TITLE env = Some (pre +:+ "(#)") ->
  let title := pre +:+ "(#)" in
  let project_title := CI_PROJECT_TITLE env in
  let message := fun shown_title : string =>
    header +:+ " pipeline <" +:+ PyStr.fmt (CI_PIPELINE_URL env) +:+ "|"
      +:+ PyStr.fmt (CI_PIPELINE_ID env) +:+ "> for " +:+ PyStr.fmt (CI_COMMIT_REF_NAME env)
      +:+ " " +:+ state +:+ "." +:+ String newline EmptyString
      +:+ shown_title
      +:+ " (<" +:+ PyStr.fmt (CI_PROJECT_URL env) +:+ "/commit/" +:+ PyStr.fmt (CI_COMMIT_SHA env)
      +:+ "|" +:+ PyStr.fmt (CI_COMMIT_SHORT_SHA env)
      +:+ ">)(:github: <https://github.com/DataDog/" +:+ PyStr.fmt project_title
      +:+ "/commit/" +:+ PyStr.fmt (CI_COMMIT_SHA env) +:+ "|link>) by " +:+ author in
  get_pr_from_commit title project_title
  = Some (EmptyString, "https://github.com/DataDog/" +:+ PyStr.fmt project_title +:+ "/pull/")
  /\ get_pr_from_commit title project_title <> None
  /\ base_message env author header state
     = message (PyStr.replace title "#" (pr_link project_title EmptyString))
  /\ base_message env author header state
     = message (wrap_hashes
                  ("<https://github.com/DataDog/" +:+ PyStr.fmt project_title +:+ "/pull/|#>")
                  title).
Proof.
  intros Htitle title project_title message.
  assert (Hmsg : base_message env author header state
                 = message (enhanced_commit_title title project_title)).
  { unfold base_message, message, DATADOG_AGENT_GITHUB_ORG_URL.
    rewrite Htitle. cbn [default]. fold title. fold project_title.
    rewrite !append_assoc. reflexivity. }
  assert (Hs : re_search title = Some EmptyString).
  { apply re_search_trailing_pr. split; [reflexivity|]. exists pre. now left. }
  assert (Hpr : get_pr_from_commit title project_title
    = Some (EmptyString, "https://github.com/DataDog/" +:+ PyStr.fmt project_title +:+ "/pull/")).
  { unfold get_pr_from_commit. rewrite Hs. reflexivity. }
  split; [exact Hpr|]. split; [rewrite Hpr; discriminate|].
  rewrite Hmsg, (enhanced_commit_title_found _ _ _ Hs). split; [reflexivity|].
  change ("#" +:+ EmptyString) with "#". rewrite replace_hash.
  reflexivity.
Qed.

Lemma empty_pr_reference_witness :
  let env :=
    {| CI_PROJECT_TITLE := Some "datadog-agent";
       CI_COMMIT_TITLE := Some "Fix #12 again (#)";
       CI_PIPELINE_URL := Some "https://gitlab.example/pipelines/77";
       CI_PIPELINE_ID := Some "77";
       CI_COMMIT_REF_NAME := Some "main";
       CI_PROJECT_URL := Some "https://gitlab.example/agent";
       CI_COMMIT_SHA := Some "0123abcd";
       CI_COMMIT_SHORT_SHA := Some "0123" |} in
  CI_COMMIT_TITLE env = Some ("Fix #12 again " +:+ "(#)")
  /\ get_pr_from_commit "Fix #12 again (#)" (Some "datadog-agent")
     = Some (EmptyString, "https://github.com/DataDog/datadog-agent/pull/")
  /\ base_message env "alice" "Failed" "failed"
     = "Failed pipeline <https://gitlab.example/pipelines/77|77> for main failed."
       +:+ String newline
             ("Fix <https://github.com/DataDog/datadog-agent/pull/|#>12 again "
              +:+ "(<https://github.com/DataDog/datadog-agent/pull/|#>)"
              +:+ " (<https://gitlab.example/agent/commit/0123abcd|0123>)"
              +:+ "(:github: <https://github.com/DataDog/datadog-agent/commit/0123abcd|link>)"
              +:+ " by alice").
Proof.
  intros env. split; [reflexivity|].
  pose proof (empty_pr_reference env "alice" "Failed" "failed" "Fix #12 again " eq_refl)
    as (Hpr & _ & _ & Hmsg).
  split; [exact Hpr | exact Hmsg].
Defined.

(** ** The test-result parser *)

Lemma bind_ok {A B : Type} (r : result A) (k : A -> result B) (b : B) :
  r ≫= k = Ok b -> exists a, r = Ok a /\ k a = Ok b.
Proof. destruct r as [a|e]; [eauto | discriminate]. Qed.

Lemma json_eq_str_true (j : json) (s : string) :
  json_eq_str j s = true <-> j = JStr s.
Proof.
  destruct j; simpl; try (split; [discriminate | intros [=]]).
  rewrite String.eqb_eq. split; [now intros -> | now intros [= ->]].
Qed.

Lemma getitem_ok (j : json) (k : string) (v : json) :
  getitem j k = Ok v -> exists fields, j = JObj fields /\ assoc k fields = Some v.
Proof.
  destruct j; try discriminate. simpl.
  destruct (assoc k fields) eqn:Ha; [|discriminate].
  intros [= <-]. eauto.
Qed.

Lemma hash_key_str (j : json) (s : string) :
  hash_key j = Ok (KStr s) <-> j = JStr s.
Proof.
  destruct j; simpl; split; try discriminate; congruence.
Qed.

Lemma contains_char (c : ascii) (s : string) :
  PyStr.contains (String c EmptyString) s = mem_char c s.
Proof.
  induction s as [|d s IH]; [reflexivity|].
  cbn [PyStr.contains mem_char String.prefix]. rewrite IH. f_equal.
  destruct (ascii_dec c d) as [->|Hne].
  - now rewrite prefix_nil, Ascii.eqb_refl.
  - symmetry. apply Ascii.eqb_neq. congruence.
Qed.

(** What a line that raises nothing does to [failed_tests]: nothing, or the
    record of a failed test whose name is a string without a slash, or the
    removal of a key. *)
Lemma process_line_ok (ft ft' : gmap (pykey * pykey) Test) (l : line) :
  process_line ft l = Ok ft' ->
  ft' = ft
  \/ (exists pk t pkg,
        hash_key pkg = Ok pk /\ mem_char "/" t = false
        /\ ft' = <[(pk, KStr t) := mkTest (JStr t) pkg]> ft
        /\ forall p, pkg = JStr p -> is_event "fail" p t l = true)
  \/ (exists k, ft' = delete k ft).
Proof.
  unfold process_line. intros H.
  apply bind_ok in H as (j & Hj & H).
  destruct l as [|j']; [discriminate|]. injection Hj as ->.
  apply bind_ok in H as (has & Hhas & H).
  destruct has; [|injection H as <-; now left].
  apply bind_ok in H as (nm & Hnm & H).
  apply bind_ok in H as (pkg & Hpkg & H).
  apply bind_ok in H as (act & Hact & H).
  apply getitem_ok in Hnm as (fields & -> & Hnm).
  apply getitem_ok in Hpkg as (fields' & [= <-] & Hpkg).
  apply getitem_ok in Hact as (fields' & [= <-] & Hact).
  destruct (json_eq_str act "fail") eqn:Hfail.
  - apply bind_ok in H as (sub & Hsub & H).
    destruct sub; [injection H as <-; now left|].
    apply bind_ok in H as (key & Hkey & H). injection H as <-.
    unfold tuple_key in Hkey.
    apply bind_ok in Hkey as (pk & Hpk & Hkey).
    apply bind_ok in Hkey as (nk & Hnk & [= <-]).
    destruct nm as [| | |t| |]; try discriminate Hsub; try discriminate Hnk.
    injection Hnk as <-. injection Hsub as Hsub. rewrite contains_char in Hsub.
    right. left. exists pk, t, pkg. repeat split; try assumption.
    intros p ->. simpl. rewrite Hnm, Hpkg, Hact. simpl.
    now rewrite !String.eqb_refl, Hfail.
  - destruct (json_eq_str act "pass").
    + apply bind_ok in H as (key & Hkey & H).
      destruct (bool_decide _); injection H as <-; [right; right; eauto | now left].
    + injection H as <-. now left.
Qed.

Lemma process_line_fail (ft : gmap (pykey * pykey) Test) (l : line) (p n : string) :
  is_event "fail" p n l = true ->
  process_line ft l
  = if mem_char "/" n then Ok ft
    else Ok (<[(KStr p, KStr n) := mkTest (JStr n) (JStr p)]> ft).
Proof.
  destruct l as [|[| | | | |fields]]; try discriminate. simpl.
  destruct (assoc "Test" fields) as [nm|] eqn:Hn; [|discriminate].
  destruct (assoc "Package" fields) as [pkg|] eqn:Hp; [|discriminate].
  destruct (assoc "Action" fields) as [act|] eqn:Ha; [|discriminate].
  intros [[->%json_eq_str_true ->%json_eq_str_true]%andb_prop ->%json_eq_str_true]%andb_prop.
  unfold process_line. simpl. rewrite Hn, Hp, Ha. simpl.
  rewrite contains_char. now destruct (mem_char "/" n).
Qed.

Lemma process_line_pass (ft : gmap (pykey * pykey) Test) (l : line) (p n : string) :
  is_event "pass" p n l = true ->
  process_line ft l = Ok (delete (KStr p, KStr n) ft).
Proof.
  destruct l as [|[| | | | |fields]]; try discriminate. simpl.
  destruct (assoc "Test" fields) as [nm|] eqn:Hn; [|discriminate].
  destruct (assoc "Package" fields) as [pkg|] eqn:Hp; [|discriminate].
  destruct (assoc "Action" fields) as [act|] eqn:Ha; [|discriminate].
  intros [[->%json_eq_str_true ->%json_eq_str_true]%andb_prop ->%json_eq_str_true]%andb_prop.
  unfold process_line. simpl. rewrite Hn, Hp, Ha. simpl.
  case_bool_decide as Hin; [reflexivity|].
  f_equal. symmetry. apply delete_id. now apply eq_None_not_Some.
Qed.

Lemma process_lines_app (ft : gmap (pykey * pykey) Test) (a b : list line) :
  process_lines ft (a ++ b) = process_lines ft a ≫= fun ft' => process_lines ft' b.
Proof.
  revert ft. induction a as [|l a IH]; intros ft; [reflexivity|].
  simpl. destruct (process_line ft l) as [ft'|e]; [apply IH | reflexivity].
Qed.

Lemma process_lines_malformed (ft : gmap (pykey * pykey) Test) (post : list line) :
  process_lines ft (Malformed :: post) = Raise JSONDecodeError.
Proof. reflexivity. Qed.

(** A line that is not a [fail] event of a test leaves the test out of
    [failed_tests] when it was out. *)
Lemma process_line_absent (ft ft' : gmap (pykey * pykey) Test) (l : line) (p n : string) :
  process_line ft l = Ok ft' ->
  is_event "fail" p n l = false ->
  ft !! (KStr p, KStr n) = None -> ft' !! (KStr p, KStr n) = None.
Proof.
  intros [-> | [(pk & t & pkg & Hpk & _ & -> & Hev) | (k & ->)]]%process_line_ok Hne Habs.
  - exact Habs.
  - rewrite lookup_insert_ne; [exact Habs|].
    intros [= -> ->]. apply hash_key_str in Hpk. rewrite (Hev p Hpk) in Hne. discriminate.
  - destruct (decide (k = (KStr p, KStr n))) as [->|Hk].
    + apply lookup_delete_eq.
    + now rewrite lookup_delete_ne.
Qed.

Lemma process_lines_absent (p n : string) (lines : list line) :
  Forall (fun l => is_event "fail" p n l = false) lines ->
  forall ft ft', process_lines ft lines = Ok ft' ->
  ft !! (KStr p, KStr n) = None -> ft' !! (KStr p, KStr n) = None.
Proof.
  induction 1 as [|l lines Hl _ IH]; intros ft ft'; simpl.
  - now intros [= <-].
  - intros (ft1 & H1 & H2)%bind_ok Habs.
    eapply IH; [exact H2|]. eapply process_line_absent; eauto.
Qed.

Lemma process_line_parents_only (ft ft' : gmap (pykey * pykey) Test) (l : line) :
  process_line ft l = Ok ft' -> parents_only ft -> parents_only ft'.
Proof.
  intros [-> | [(pk & t & pkg & _ & Ht & -> & _) | (k & ->)]]%process_line_ok Hinv;
    [exact Hinv | |]; intros pk' nk' t' Hl.
  - destruct (decide ((pk, KStr t) = (pk', nk'))) as [[= <- <-]|Hne].
    + rewrite lookup_insert_eq in Hl. injection Hl as <-. eauto.
    + rewrite lookup_insert_ne in Hl by exact Hne. eauto.
  - apply lookup_delete_Some in Hl as [_ Hl]. eauto.
Qed.

Lemma process_lines_parents_only (lines : list line) :
  forall ft ft', process_lines ft lines = Ok ft' -> parents_only ft -> parents_only ft'.
Proof.
  induction lines as [|l lines IH]; intros ft ft'; simpl.
  - now intros [= <-].
  - intros (ft1 & H1 & H2)%bind_ok Hinv.
    eapply IH; [exact H2|]. eapply process_line_parents_only; eauto.
Qed.

(** A stream of test events whose fields are strings raises nothing. *)
Lemma process_lines_events (lines : list line) :
  Forall (fun l => exists a p n, l = event a p n) lines ->
  forall ft, is_ok (process_lines ft lines) = true.
Proof.
  induction 1 as [|l lines (a & p & n & ->) _ IH]; intros ft; [reflexivity|].
  simpl. unfold process_line. simpl.
  destruct (String.eqb a "fail").
  - simpl. destruct (PyStr.contains "/" n); simpl; apply IH.
  - destruct (String.eqb a "pass"); simpl; [|apply IH].
    case_bool_decide; simpl; apply IH.
Qed.

Lemma is_event_event (a p n : string) : is_event a p n (event a p n) = true.
Proof. simpl. now rewrite !String.eqb_refl. Qed.

#[local] Arguments process_line : simpl never.
#[local] Arguments event : simpl never.

Lemma process_event_fail (ft : gmap (pykey * pykey) Test) (p n : string) :
  process_line ft (event "fail" p n)
  = if mem_char "/" n then Ok ft
    else Ok (<[(KStr p, KStr n) := mkTest (JStr n) (JStr p)]> ft).
Proof. apply process_line_fail, is_event_event. Qed.

Lemma process_event_pass (ft : gmap (pykey * pykey) Test) (p n : string) :
  process_line ft (event "pass" p n) = Ok (delete (KStr p, KStr n) ft).
Proof. apply process_line_pass, is_event_event. Qed.

(** Runs the parser on a stream of events given in full. *)
Ltac run_events :=
  unfold failed_tests_of;
  repeat first [ rewrite process_event_fail
               | rewrite process_event_pass
               | progress simpl ].

(** C2, as the code has it.  A [fail] event followed later by a [pass] event
    of the same (package, name) leaves the test out of the final mapping when
    no [fail] event of that test comes after the [pass]; a [pass] event of a
    test that is not recorded as failed leaves the mapping as it is; and the
    stream fail T1, fail T2, pass T1 of package pkgA ends with the one failed
    test (pkgA, T2). *)
Theorem retried_test_removed (p n : string) :
  (forall (pre mid post : list line) (lf lp : line) (ft : gmap (pykey * pykey) Test),
     is_event "fail" p n lf = true ->
     is_event "pass" p n lp = true ->
     Forall (fun l => is_event "fail" p n l = false) post ->
     failed_tests_of (pre ++ lf :: mid ++ lp :: post) = Ok ft ->
     ft !! (KStr p, KStr n) = None)
  /\ (forall (pre : list line) (lp : line) (ft : gmap (pykey * pykey) Test),
        is_event "pass" p n lp = true ->
        failed_tests_of pre = Ok ft ->
        ft !! (KStr p, KStr n) = None ->
        failed_tests_of (pre ++ [lp]) = Ok ft)
  /\ failed_tests_of
       [event "fail" "pkgA" "T1"; event "fail" "pkgA" "T2"; event "pass" "pkgA" "T1"]
     = Ok {[ (KStr "pkgA", KStr "T2") := mkTest (JStr "T2") (JStr "pkgA") ]}.
Proof.
  split; [|split].
  - intros pre mid post lf lp ft _ Hpass Hpost. unfold failed_tests_of.
    replace (pre ++ lf :: mid ++ lp :: post) with ((pre ++ lf :: mid) ++ lp :: post)
      by (rewrite <- app_assoc; reflexivity).
    rewrite process_lines_app.
    intros (ft1 & _ & H)%bind_ok. simpl in H.
    rewrite (process_line_pass _ _ _ _ Hpass) in H. simpl in H.
    eapply process_lines_absent; [exact Hpost | exact H |].
    apply lookup_delete_eq.
  - intros pre lp ft Hpass Hpre Habs. unfold failed_tests_of in *.
    rewrite process_lines_app, Hpre. simpl.
    rewrite (process_line_pass _ _ _ _ Hpass). simpl.
    f_equal. now apply delete_id.
  - run_events. reflexivity.
Qed.

Lemma retried_test_removed_witness :
  ({[ (KStr "pkgA", KStr "T2") := mkTest (JStr "T2") (JStr "pkgA") ]}
     : gmap (pykey * pykey) Test) !! (KStr "pkgA", KStr "T1") = None.
Proof.
  refine (proj1 (retried_test_removed "pkgA" "T1")
            [] [event "fail" "pkgA" "T2"] []
            (event "fail" "pkgA" "T1") (event "pass" "pkgA" "T1") _
            eq_refl eq_refl (Forall_nil _) _).
  exact (proj2 (proj2 (retried_test_removed "pkgA" "T1"))).
Defined.

(** The claim C2 as it is written fails when the test fails again after it
    passed: the stream fail T1, pass T1, fail T1 ends with T1 recorded as
    failed. *)
Lemma failed_again_after_pass :
  failed_tests_of
    [event "fail" "pkgA" "T1"; event "pass" "pkgA" "T1"; event "fail" "pkgA" "T1"]
  = Ok {[ (KStr "pkgA", KStr "T1") := mkTest (JStr "T1") (JStr "pkgA") ]}
  /\ ({[ (KStr "pkgA", KStr "T1") := mkTest (JStr "T1") (JStr "pkgA") ]}
        : gmap (pykey * pykey) Test) !! (KStr "pkgA", KStr "T1") <> None.
Proof.
  split.
  - run_events. reflexivity.
  - rewrite lookup_singleton_eq. discriminate.
Qed.

(** C3, as the code has it.  A line that is not well-formed JSON ends the
    parse with an exception: no mapping is returned, whatever the lines after
    it, and the exception is the one of the decoder when the lines before it
    raise nothing. *)
Theorem malformed_line_aborts (pre post : list line) :
  (exists e, failed_tests_of (pre ++ Malformed :: post) = Raise e
             /\ get_failed_tests (pre ++ Malformed :: post) = Raise e)
  /\ (is_ok (failed_tests_of pre) = true ->
      failed_tests_of (pre ++ Malformed :: post) = Raise JSONDecodeError
      /\ get_failed_tests (pre ++ Malformed :: post) = Raise JSONDecodeError).
Proof.
  unfold get_failed_tests, failed_tests_of. rewrite process_lines_app.
  destruct (process_lines ∅ pre) as [ft|e]; simpl.
  - split; [exists JSONDecodeError|]; split; reflexivity.
  - split; [exists e; split; reflexivity | discriminate].
Qed.

Lemma malformed_line_aborts_witness :
  failed_tests_of ([event "fail" "pkgA" "T1"] ++ Malformed :: [event "fail" "pkgA" "T2"])
  = Raise JSONDecodeError
  /\ get_failed_tests ([event "fail" "pkgA" "T1"] ++ Malformed :: [event "fail" "pkgA" "T2"])
     = Raise JSONDecodeError.
Proof.
  apply (proj2 (malformed_line_aborts [event "fail" "pkgA" "T1"] [event "fail" "pkgA" "T2"])).
  apply process_lines_events. repeat constructor. now exists "fail", "pkgA", "T1".
Defined.

(** The claim C3 as it is written fails: with a malformed first line the
    parser raises, and without that line it returns the failed test of the
    second line. *)
Lemma malformed_line_not_skipped :
  failed_tests_of [Malformed; event "fail" "pkgA" "T1"] = Raise JSONDecodeError
  /\ failed_tests_of [event "fail" "pkgA" "T1"]
     = Ok {[ (KStr "pkgA", KStr "T1") := mkTest (JStr "T1") (JStr "pkgA") ]}
  /\ failed_tests_of [Malformed; event "fail" "pkgA" "T1"]
     <> failed_tests_of [event "fail" "pkgA" "T1"].
Proof.
  assert (H : failed_tests_of [event "fail" "pkgA" "T1"]
              = Ok {[ (KStr "pkgA", KStr "T1") := mkTest (JStr "T1") (JStr "pkgA") ]}).
  { run_events. reflexivity. }
  split; [reflexivity|]. split; [exact H|]. rewrite H. discriminate.
Qed.

(** C8. Whatever the stream, a test whose name contains a slash is not a
    key of the final mapping, and is not among the tests returned: the keys
    and the returned tests are named by strings without a slash. *)
Theorem no_subtest_in_output (test_output : list line) :
  (forall ft, failed_tests_of test_output = Ok ft ->
     forall package name, is_Some (ft !! (package, name)) ->
     exists s, name = KStr s /\ mem_char "/" s = false)
  /\ (forall tests, get_failed_tests test_output = Ok tests ->
      forall t, t ∈ tests ->
      exists s, test_name t = JStr s /\ mem_char "/" s = false).
Proof.
  assert (Hinv : forall ft, failed_tests_of test_output = Ok ft -> parents_only ft).
  { intros ft H. eapply process_lines_parents_only; [exact H|].
    intros pk nk t Hl. rewrite lookup_empty in Hl. discriminate. }
  split.
  - intros ft H package name [t Ht].
    destruct (Hinv ft H _ _ _ Ht) as (s & -> & _ & Hs). eauto.
  - intros tests H t Hin. unfold get_failed_tests in H.
    apply bind_ok in H as (ft & Hft & [= <-]).
    apply list_elem_of_fmap in Hin as ([[pk nk] t'] & -> & Hin).
    apply elem_of_map_to_list in Hin.
    destruct (Hinv ft Hft _ _ _ Hin) as (s & _ & Hn & Hs). eauto.
Qed.

Lemma no_subtest_in_output_witness :
  exists s, KStr "T2" = KStr s /\ mem_char "/" s = false.
Proof.
  refine (proj1 (no_subtest_in_output
            [event "fail" "pkgA" "T1/sub"; event "fail" "pkgA" "T2"])
            {[ (KStr "pkgA", KStr "T2") := mkTest (JStr "T2") (JStr "pkgA") ]}
            _ (KStr "pkgA") (KStr "T2") _).
  - run_events. reflexivity.
  - rewrite lookup_singleton_eq. eauto.
Defined.

(** ** Routing *)

Lemma add_failed_job_elem (j job : ProjectJob) (fj : FailedJobs) :
  j ∈ all_failures (add_failed_job job fj) <-> j = job \/ j ∈ all_failures fj.
Proof.
  unfold add_failed_job, all_failures.
  destruct (infra job), (mandatory job); simpl;
    rewrite !elem_of_app, ?list_elem_of_singleton; tauto.
Qed.

Lemma in_opt_add (j job : ProjectJob) (b : option FailedJobs) :
  in_opt (bucket_add job b) j <-> j = job \/ in_opt b j.
Proof.
  unfold in_opt, bucket_add. split.
  - intros (fj & [= <-] & Hj). apply add_failed_job_elem in Hj as [->|Hj]; [now left|].
    right. destruct b as [fj|]; [eauto|]. simpl in Hj.
    unfold all_failures in Hj. simpl in Hj. now apply elem_of_nil in Hj.
  - intros [-> | (fj & -> & Hj)]; eexists; (split; [reflexivity|]);
      apply add_failed_job_elem; auto.
Qed.

Lemma in_opt_None (j : ProjectJob) : ~ in_opt None j.
Proof. intros (fj & [=] & _). Qed.

Lemma is_team_true (owner : string) (ko : string * string) :
  is_team owner ko = true <-> ko = ("TEAM", owner).
Proof.
  destruct ko as [k o]. unfold is_team. simpl.
  rewrite andb_true_iff, !String.eqb_eq. split; [now intros [-> ->] | now intros [= -> ->]].
Qed.

Lemma notify_lookup (owner o : string) (job : ProjectJob) (m : gmap string FailedJobs) :
  notify owner job m !! o = if decide (owner = o) then bucket_add job (m !! o) else m !! o.
Proof.
  unfold notify. destruct (decide (owner = o)) as [->|Hne].
  - now rewrite lookup_insert_eq.
  - now rewrite lookup_insert_ne.
Qed.

Lemma notify_teams_lookup (o : string) (job : ProjectJob) (kos : list (string * string)) :
  forall m, notify_teams job kos m !! o = bucket_teams o job kos (m !! o).
Proof.
  unfold notify_teams, bucket_teams.
  induction kos as [|[k owner] kos IH]; intros m; [reflexivity|].
  simpl. rewrite IH. f_equal. unfold is_team. simpl.
  destruct (String.eqb k "TEAM"); [|reflexivity]. simpl.
  rewrite notify_lookup.
  destruct (decide (owner = o)) as [->|Hne].
  - now rewrite String.eqb_refl.
  - apply String.eqb_neq in Hne. now rewrite Hne.
Qed.

Lemma notify_e2e_lookup (o : string) (jobs : list ProjectJob) :
  forall m, fold_left notify_e2e jobs m !! o
            = if decide (E2E_OWNER = o) then bucket_e2e jobs (m !! o) else m !! o.
Proof.
  unfold bucket_e2e.
  induction jobs as [|job jobs IH]; intros m; simpl.
  - now destruct (decide _).
  - rewrite IH. unfold notify_e2e.
    destruct (decide (failure_reason job = E2E_INFRA_FAILURE)); [|reflexivity].
    rewrite notify_lookup. now destruct (decide (E2E_OWNER = o)).
Qed.

Lemma notify_jobs_lookup (o : string) (f : ProjectJob -> list (string * string))
    (jobs : list ProjectJob) :
  forall m, fold_left (fun acc job => notify_teams job (f job) acc) jobs m !! o
            = bucket_jobs o f jobs (m !! o).
Proof.
  unfold bucket_jobs.
  induction jobs as [|job jobs IH]; intros m; [reflexivity|].
  simpl. rewrite IH. now rewrite notify_teams_lookup.
Qed.

(** The bucket of an owner is built from the jobs routed to that owner alone. *)
Lemma find_job_owners_lookup (failed_jobs : FailedJobs) (owners : CodeOwners) (o : string) :
  find_job_owners failed_jobs owners !! o
  = bucket_jobs o (fun job => of_ owners (name job)) (all_non_infra_failures failed_jobs)
      (if decide (E2E_OWNER = o)
       then bucket_e2e (mandatory_infra_job_failures failed_jobs) None
       else None).
Proof.
  unfold find_job_owners.
  rewrite notify_jobs_lookup, notify_e2e_lookup, lookup_empty. reflexivity.
Qed.

Lemma in_opt_bucket_teams (o : string) (j job : ProjectJob) (kos : list (string * string)) :
  forall b, in_opt (bucket_teams o job kos b) j
            <-> in_opt b j \/ (j = job /\ ("TEAM", o) ∈ kos).
Proof.
  unfold bucket_teams.
  induction kos as [|ko kos IH]; intros b; simpl.
  - rewrite elem_of_nil. tauto.
  - rewrite IH, elem_of_cons. destruct (is_team o ko) eqn:Hko.
    + apply is_team_true in Hko as ->. rewrite in_opt_add. tauto.
    + assert (("TEAM", o) <> ko).
      { intros <-. now rewrite (proj2 (is_team_true o _) eq_refl) in Hko. }
      tauto.
Qed.

Lemma in_opt_bucket_jobs (o : string) (f : ProjectJob -> list (string * string))
    (j : ProjectJob) (jobs : list ProjectJob) :
  forall b, in_opt (bucket_jobs o f jobs b) j
            <-> in_opt b j \/ (j ∈ jobs /\ ("TEAM", o) ∈ f j).
Proof.
  unfold bucket_jobs.
  induction jobs as [|job jobs IH]; intros b; simpl.
  - rewrite elem_of_nil. tauto.
  - rewrite IH, in_opt_bucket_teams, elem_of_cons. split.
    + intros [[H | [-> H]] | H]; tauto.
    + intros [H | [[-> | H] H']]; tauto.
Qed.

Lemma in_opt_bucket_e2e (j : ProjectJob) (jobs : list ProjectJob) :
  forall b, in_opt (bucket_e2e jobs b) j
            <-> in_opt b j \/ (j ∈ jobs /\ failure_reason j = E2E_INFRA_FAILURE).
Proof.
  unfold bucket_e2e.
  induction jobs as [|job jobs IH]; intros b; simpl.
  - rewrite elem_of_nil. tauto.
  - rewrite IH, elem_of_cons.
    destruct (decide (failure_reason job = E2E_INFRA_FAILURE)) as [He|Hne].
    + rewrite in_opt_add. split.
      * intros [[-> | H] | H]; tauto.
      * intros [H | [[-> | H] H']]; tauto.
    + split; [tauto|]. intros [H | [[-> | H] H']]; tauto.
Qed.

(** The jobs of a bucket: the e2e infrastructure failures for the fallback
    owner, and the other failures the table gives to the owner as a team. *)
Lemma in_bucket_find_job_owners (failed_jobs : FailedJobs) (owners : CodeOwners)
    (o : string) (j : ProjectJob) :
  in_bucket (find_job_owners failed_jobs owners) o j
  <-> (o = E2E_OWNER /\ j ∈ mandatory_infra_job_failures failed_jobs
       /\ failure_reason j = E2E_INFRA_FAILURE)
      \/ (j ∈ all_non_infra_failures failed_jobs /\ ("TEAM", o) ∈ of_ owners (name j)).
Proof.
  change (in_bucket (find_job_owners failed_jobs owners) o j)
    with (in_opt (find_job_owners failed_jobs owners !! o) j).
  rewrite find_job_owners_lookup, in_opt_bucket_jobs.
  pose proof (in_opt_None j) as Hnone.
  destruct (decide (E2E_OWNER = o)) as [<-|Hne].
  - rewrite in_opt_bucket_e2e. tauto.
  - split; [tauto|]. intros [(-> & _) | H]; [congruence | tauto].
Qed.

(** A bucket is made when a job is put in it. *)
Lemma bucket_not_empty (failed_jobs : FailedJobs) (owners : CodeOwners) (o : string) :
  is_Some (find_job_owners failed_jobs owners !! o) ->
  exists j, in_bucket (find_job_owners failed_jobs owners) o j.
Proof.
  assert (Hadd : forall job b, exists j, in_opt (bucket_add job b) j).
  { intros job b. exists job. apply in_opt_add. now left. }
  assert (Hteams : forall job kos b,
            (is_Some b -> exists j, in_opt b j) ->
            is_Some (bucket_teams o job kos b) ->
            exists j, in_opt (bucket_teams o job kos b) j).
  { unfold bucket_teams. intros job kos. induction kos as [|ko kos IH]; intros b Hb; simpl.
    - exact Hb.
    - apply IH. destruct (is_team o ko); [intros _; apply Hadd | exact Hb]. }
  assert (Hjobs : forall f jobs b,
            (is_Some b -> exists j, in_opt b j) ->
            is_Some (bucket_jobs o f jobs b) ->
            exists j, in_opt (bucket_jobs o f jobs b) j).
  { unfold bucket_jobs. intros f jobs. induction jobs as [|job jobs IH]; intros b Hb; simpl.
    - exact Hb.
    - apply IH. now apply Hteams. }
  assert (He2e : forall jobs b,
            (is_Some b -> exists j, in_opt b j) ->
            is_Some (bucket_e2e jobs b) ->
            exists j, in_opt (bucket_e2e jobs b) j).
  { unfold bucket_e2e. intros jobs. induction jobs as [|job jobs IH]; intros b Hb; simpl.
    - exact Hb.
    - apply IH. destruct (decide _); [intros _; apply Hadd | exact Hb]. }
  unfold in_bucket. fold (in_opt (find_job_owners failed_jobs owners !! o)).
  rewrite find_job_owners_lookup. apply Hjobs.
  destruct (decide (E2E_OWNER = o)).
  - apply He2e. intros [? [=]].
  - intros [? [=]].
Qed.

(** The lists of a collection built by [add_failed_job] share no job. *)
Lemma filed_flags (fj : FailedJobs) (j : ProjectJob) :
  filed fj = true ->
  (j ∈ all_non_infra_failures fj -> infra j = false)
  /\ (j ∈ mandatory_infra_job_failures fj -> infra j = true /\ mandatory j = true)
  /\ (j ∈ all_failures fj -> infra j = true -> mandatory j = true ->
      j ∈ mandatory_infra_job_failures fj).
Proof.
  unfold filed, all_non_infra_failures, all_failures.
  rewrite !andb_true_iff, !forallb_forall.
  intros [[[H1 H2] H3] H4].
  split; [|split].
  - intros [Hj|Hj]%elem_of_app; apply list_elem_of_In in Hj;
      [apply H1 in Hj | apply H2 in Hj]; now destruct (infra j).
  - intros Hj. apply list_elem_of_In, H3 in Hj. now apply andb_prop in Hj.
  - rewrite !elem_of_app. intros [Hj | [Hj | [Hj | Hj]]] Hi Hm; [| |exact Hj|];
      apply list_elem_of_In in Hj;
      [apply H1 in Hj | apply H2 in Hj | apply H4 in Hj];
      rewrite Hi, Hm in Hj; discriminate.
Qed.

Lemma add_failed_job_filed (job : ProjectJob) (fj : FailedJobs) :
  filed fj = true -> filed (add_failed_job job fj) = true.
Proof.
  unfold filed, add_failed_job. rewrite !andb_true_iff. intros [[[H1 H2] H3] H4].
  destruct (infra job) eqn:Hi, (mandatory job) eqn:Hm; simpl;
    repeat split; try assumption;
    rewrite forallb_app; simpl; rewrite ?Hi, ?Hm; simpl;
    now rewrite ?H1, ?H2, ?H3, ?H4.
Qed.

(** Every collection built from [FailedJobs()] by [add_failed_job] satisfies
    [filed]. *)
Lemma built_filed (jobs : list ProjectJob) :
  filed (fold_left (fun acc job => add_failed_job job acc) jobs no_failed_jobs) = true.
Proof.
  assert (H : forall acc, filed acc = true ->
            filed (fold_left (fun acc job => add_failed_job job acc) jobs acc) = true).
  { induction jobs as [|job jobs IH]; intros acc Hacc; simpl; [exact Hacc|].
    apply IH. now apply add_failed_job_filed. }
  now apply H.
Qed.





(** C1. Every job of the mandatory infrastructure failures whose reason is
    the e2e infrastructure failure is in the bucket of the fallback owner
    [@DataDog/agent-e2e-testing], whatever the ownership table, the empty
    table included.  In a collection built by [add_failed_job] these jobs are
    the failed jobs with the mandatory flag, the infra flag and that
    reason. *)
Theorem e2e_failure_routed_to_fallback (failed_jobs : FailedJobs) (owners : CodeOwners)
    (job : ProjectJob) :
  failure_reason job = E2E_INFRA_FAILURE ->
  job ∈ mandatory_infra_job_failures failed_jobs
  \/ (filed failed_jobs = true /\ job ∈ all_failures failed_jobs
      /\ mandatory job = true /\ infra job = true) ->
  in_bucket (find_job_owners failed_jobs owners) "@DataDog/agent-e2e-testing" job
  /\ in_bucket (find_job_owners failed_jobs (mkOwners [])) "@DataDog/agent-e2e-testing" job.
Proof.
  intros Hreason Hjob.
  assert (Hin : job ∈ mandatory_infra_job_failures failed_jobs).
  { destruct Hjob as [H | (Hfiled & Hall & Hm & Hi)]; [exact H|].
    now apply (filed_flags failed_jobs job Hfiled). }
  split; apply in_bucket_find_job_owners; left; repeat split; assumption.
Qed.

Lemma e2e_failure_routed_to_fallback_witness :
  in_bucket
    (find_job_owners
       (mkFailedJobs [] [] [mkJob 7 "new-e2e-containers" E2E_INFRA_FAILURE true true] [])
       (mkOwners []))
    "@DataDog/agent-e2e-testing"
    (mkJob 7 "new-e2e-containers" E2E_INFRA_FAILURE true true).
Proof.
  refine (proj1 (e2e_failure_routed_to_fallback
            (mkFailedJobs [] [] [mkJob 7 "new-e2e-containers" E2E_INFRA_FAILURE true true] [])
            (mkOwners []) (mkJob 7 "new-e2e-containers" E2E_INFRA_FAILURE true true)
            eq_refl _)).
  left. simpl. apply list_elem_of_singleton. reflexivity.
Defined.

(** C4. In the routing of a collection built by [add_failed_job], a failure
    that is not an infrastructure failure is only in buckets of owners that
    the table gives to its name with the kind TEAM; an owner other than the
    fallback owner that is never given as a TEAM, such as an owner of kind
    USERNAME, has no bucket; and a job without a TEAM owner is in no bucket.
    The routing is a total function: none of this is an error. *)
Theorem only_team_owners_get_buckets (failed_jobs : FailedJobs) (owners : CodeOwners) :
  filed failed_jobs = true ->
  (forall owner job,
     job ∈ all_non_infra_failures failed_jobs ->
     in_bucket (find_job_owners failed_jobs owners) owner job ->
     ("TEAM", owner) ∈ of_ owners (name job))
  /\ (forall owner,
        owner <> "@DataDog/agent-e2e-testing" ->
        (forall job, job ∈ all_non_infra_failures failed_jobs ->
                     ("TEAM", owner) ∉ of_ owners (name job)) ->
        find_job_owners failed_jobs owners !! owner = None)
  /\ (forall job,
        job ∈ all_non_infra_failures failed_jobs ->
        (forall owner, ("TEAM", owner) ∉ of_ owners (name job)) ->
        forall owner, ~ in_bucket (find_job_owners failed_jobs owners) owner job).
Proof.
  intros Hfiled.
  assert (Hteam : forall owner job,
            job ∈ all_non_infra_failures failed_jobs ->
            in_bucket (find_job_owners failed_jobs owners) owner job ->
            ("TEAM", owner) ∈ of_ owners (name job)).
  { intros owner job Hjob [(_ & Hinfra & _) | [_ H]]%in_bucket_find_job_owners; [|exact H].
    destruct (filed_flags failed_jobs job Hfiled) as (Hnon & Hmand & _).
    rewrite (Hnon Hjob) in Hmand. now destruct (Hmand Hinfra). }
  split; [exact Hteam|]. split.
  - intros owner Hne Hnever. apply eq_None_not_Some. intros Hsome.
    apply bucket_not_empty in Hsome as [j Hj].
    apply in_bucket_find_job_owners in Hj as [(-> & _) | [Hjob H]]; [now apply Hne|].
    exact (Hnever j Hjob H).
  - intros job Hjob Hnone owner Hin. exact (Hnone owner (Hteam owner job Hjob Hin)).
Qed.

Lemma only_team_owners_get_buckets_witness :
  find_job_owners
    (mkFailedJobs [mkJob 3 "lint_linux" TEST_FAILURE true false] [] [] [])
    (mkOwners [mkPath (String.eqb "lint_linux") "lint_linux"
                 [("USERNAME", "@alice")] 1 None])
  !! "@alice" = None.
Proof.
  refine (proj1 (proj2 (only_team_owners_get_buckets
            (mkFailedJobs [mkJob 3 "lint_linux" TEST_FAILURE true false] [] [] [])
            (mkOwners [mkPath (String.eqb "lint_linux") "lint_linux"
                         [("USERNAME", "@alice")] 1 None])
            eq_refl)) "@alice" _ _).
  - discriminate.
  - intros job Hjob. apply list_elem_of_singleton in Hjob as ->.
    intros [Hk | Hk]%elem_of_cons; [discriminate | now apply elem_of_nil in Hk].
Defined.




(** ** The registry audit *)

Lemma length_append (a b : string) :
  String.length (a +:+ b) = String.length a + String.length b.
Proof. induction a as [|c a IH]; simpl; [reflexivity | now rewrite IH]. Qed.

Lemma append_inj_length (a b c d : string) :
  String.length a = String.length b -> a +:+ c = b +:+ d -> a = b /\ c = d.
Proof.
  revert b. induction a as [|x a IH]; intros [|y b]; simpl; try discriminate.
  - auto.
  - intros [= Hlen] [= -> Heq]. destruct (IH b Hlen Heq) as [-> ->]. auto.
Qed.

Lemma append_inj_r (a b c : string) : a +:+ c = b +:+ c -> a = b.
Proof.
  intros Heq. apply (append_inj_length a b c c); [|exact Heq].
  apply (f_equal String.length) in Heq. repeat rewrite length_append in Heq. lia.
Qed.

Lemma slack_message_inj (t t' : string) : slack_message t = slack_message t' -> t = t'.
Proof. unfold slack_message. simpl. intros [= H]. now apply append_inj_r in H. Qed.

Lemma jira_message_inj (t t' : string) : jira_message t = jira_message t' -> t = t'.
Proof. unfold jira_message. simpl. intros [= H]. now apply append_inj_r in H. Qed.

Lemma slack_message_not_jira (t t' : string) : slack_message t <> jira_message t'.
Proof.
  unfold slack_message, jira_message. simpl. intros [= H].
  assert (H' : (t +:+ " doesn't have a slack tea") +:+ "m assigned !!"
               = (t' +:+ " doesn't have a jira projec") +:+ "t assigned !!").
  { rewrite !append_assoc. exact H. }
  assert (Hlen : String.length (t +:+ " doesn't have a slack tea")
                 = String.length (t' +:+ " doesn't have a jira projec")).
  { apply (f_equal String.length) in H'.
    repeat rewrite length_append in H'. repeat rewrite length_append.
    simpl in H' |- *. lia. }
  apply (append_inj_length _ _ _ _ Hlen) in H' as [_ [=]].
Qed.

#[local] Arguments slack_message : simpl never.
#[local] Arguments jira_message : simpl never.

Lemma check_map_state (print_missing_teams : bool) (map : gmap string string)
    (team message : string) (state : bool * list string) :
  check_map print_missing_teams map team message state
  = (fst state || negb (bool_decide (is_Some (map !! PyStr.lower team))),
     snd state ++ (if print_missing_teams
                   then if bool_decide (is_Some (map !! PyStr.lower team))
                        then [] else [message]
                   else [])).
Proof.
  unfold check_map. destruct state as [e out]. simpl.
  destruct print_missing_teams, (bool_decide _); simpl;
    rewrite ?orb_false_r, ?orb_true_r, ?app_nil_r; reflexivity.
Qed.

Lemma check_path_state (print_missing_teams : bool) (slack jira : gmap string string)
    (state : bool * list string) (path : path_entry) :
  check_path print_missing_teams slack jira state path
  = (fst state || path_gap slack jira path,
     snd state ++ (if print_missing_teams then path_messages slack jira path else [])).
Proof.
  unfold check_path, path_gap, path_messages. destruct state as [e out].
  destruct (path_owners path) as [|[kind team] rest]; simpl.
  - rewrite orb_false_r. destruct print_missing_teams; now rewrite app_nil_r.
  - destruct (String.eqb kind "TEAM"); simpl.
    + rewrite !check_map_state. simpl. rewrite orb_assoc, <- app_assoc.
      now destruct print_missing_teams.
    + rewrite orb_false_r. destruct print_missing_teams; now rewrite app_nil_r.
Qed.

Lemma check_paths_state (print_missing_teams : bool) (slack jira : gmap string string)
    (entries : list path_entry) :
  forall state,
    fold_left (check_path print_missing_teams slack jira) entries state
    = (fst state || existsb (path_gap slack jira) entries,
       snd state ++ (if print_missing_teams
                     then flat_map (path_messages slack jira) entries else [])).
Proof.
  induction entries as [|e entries IH]; intros [err out]; simpl.
  - rewrite orb_false_r. destruct print_missing_teams; now rewrite app_nil_r.
  - rewrite IH, check_path_state. simpl. rewrite orb_assoc, <- app_assoc.
    now destruct print_missing_teams.
Qed.

Lemma reports_of_app (team : string) (a b : list string) :
  reports_of team (a ++ b) = reports_of team a ++ reports_of team b.
Proof. apply filter_app. Qed.

(** The lines printed for a path name the first owner of the path. *)
Lemma reports_of_path (team : string) (slack jira : gmap string string) (path : path_entry) :
  length (reports_of team (path_messages slack jira path))
  = if match path_owners path with
       | (kind, t) :: _ => String.eqb kind "TEAM" && String.eqb t team
       | [] => false
       end
    then missing_maps slack jira team else 0.
Proof.
  unfold path_messages, missing_maps.
  destruct (path_owners path) as [|[kind t] rest]; [reflexivity|].
  destruct (String.eqb kind "TEAM"); [|reflexivity].
  rewrite reports_of_app, length_app. cbn [andb].
  assert (Hone : forall m : string,
            length (reports_of team [m])
            = if String.eqb m (slack_message team) || String.eqb m (jira_message team)
              then 1 else 0).
  { intros m. unfold reports_of. cbn [List.filter]. now destruct (_ || _). }
  assert (Hnil : length (reports_of team []) = 0) by reflexivity.
  destruct (String.eqb_spec t team) as [->|Hne].
  - f_equal; destruct (bool_decide _); rewrite ?Hnil, ?Hone, ?String.eqb_refl, ?orb_true_r;
      reflexivity.
  - assert (Hs : String.eqb (slack_message t) (slack_message team) = false).
    { apply String.eqb_neq. intros H%slack_message_inj. contradiction. }
    assert (Hj : String.eqb (jira_message t) (jira_message team) = false).
    { apply String.eqb_neq. intros H%jira_message_inj. contradiction. }
    assert (Hsj : String.eqb (slack_message t) (jira_message team) = false).
    { apply String.eqb_neq, slack_message_not_jira. }
    assert (Hjs : String.eqb (jira_message t) (slack_message team) = false).
    { apply String.eqb_neq. intros H. symmetry in H. now apply slack_message_not_jira in H. }
    destruct (bool_decide (is_Some (slack !! PyStr.lower t)));
      destruct (bool_decide (is_Some (jira !! PyStr.lower t)));
      rewrite ?Hnil, ?Hone, ?Hs, ?Hj, ?Hsj, ?Hjs; reflexivity.
Qed.

Lemma reports_of_paths (team : string) (slack jira : gmap string string)
    (entries : list path_entry) :
  length (reports_of team (flat_map (path_messages slack jira) entries))
  = length (List.filter
              (fun e => match path_owners e with
                        | (kind, t) :: _ => String.eqb kind "TEAM" && String.eqb t team
                        | [] => false
                        end) entries)
    * missing_maps slack jira team.
Proof.
  induction entries as [|e entries IH]; [reflexivity|].
  simpl. rewrite reports_of_app, length_app, IH, reports_of_path.
  destruct (match path_owners e with
            | (kind, t) :: _ => String.eqb kind "TEAM" && String.eqb t team
            | [] => false
            end); simpl; lia.
Qed.

(** C5, as the code has it.  The audit goes through every path and returns
    whether the first owner of some path is a team that one of the two maps
    lacks.  When it prints, it prints for each path one line for each map that
    lacks the first owner: a team is reported once for each path it owns first
    and each map that lacks it, so twice for each such path when both maps
    lack it, and once for each such path when one map has it. *)
Theorem audit_reports_every_gap (owners : CodeOwners) (slack jira : gmap string string) :
  (forall print_missing_teams,
     check_for_missing_owners_slack_and_jira print_missing_teams owners slack jira
     = (existsb (path_gap slack jira) (paths owners),
        if print_missing_teams
        then flat_map (path_messages slack jira) (paths owners) else []))
  /\ (forall team,
        length (reports_of team
                  (snd (check_for_missing_owners_slack_and_jira true owners slack jira)))
        = length (first_owned team owners) * missing_maps slack jira team)
  /\ (forall team print_missing_teams,
        first_owned team owners <> [] ->
        0 < missing_maps slack jira team ->
        fst (check_for_missing_owners_slack_and_jira print_missing_teams owners slack jira)
        = true).
Proof.
  assert (Hrun : forall print_missing_teams,
     check_for_missing_owners_slack_and_jira print_missing_teams owners slack jira
     = (existsb (path_gap slack jira) (paths owners),
        if print_missing_teams
        then flat_map (path_messages slack jira) (paths owners) else [])).
  { intros pr. unfold check_for_missing_owners_slack_and_jira.
    now rewrite check_paths_state. }
  split; [exact Hrun|]. split.
  - intros team. rewrite Hrun. simpl. apply reports_of_paths.
  - intros team pr Howned Hmissing. rewrite Hrun. simpl.
    destruct (first_owned team owners) as [|e es] eqn:He; [contradiction|].
    assert (Hin : In e (first_owned team owners)) by (rewrite He; now left).
    unfold first_owned in Hin. apply filter_In in Hin as [Hin Hfirst].
    apply existsb_exists. exists e. split; [exact Hin|].
    unfold path_gap. destruct (path_owners e) as [|[kind t] rest]; [discriminate|].
    apply andb_prop in Hfirst as [-> ->%String.eqb_eq]. simpl.
    unfold missing_maps in Hmissing.
    destruct (bool_decide (is_Some (slack !! PyStr.lower team))); [|reflexivity].
    destruct (bool_decide (is_Some (jira !! PyStr.lower team))); [simpl in Hmissing; lia|].
    reflexivity.
Qed.

Lemma audit_reports_every_gap_witness :
  fst (check_for_missing_owners_slack_and_jira false
         (mkOwners [mkPath (String.eqb "/pkg/") "/pkg/" [("TEAM", "@DataDog/Agent-X")] 1 None])
         {[ "@datadog/agent-x" := "#agent-x" ]} ∅)
  = true.
Proof.
  refine (proj2 (proj2 (audit_reports_every_gap
            (mkOwners [mkPath (String.eqb "/pkg/") "/pkg/" [("TEAM", "@DataDog/Agent-X")] 1 None])
            {[ "@datadog/agent-x" := "#agent-x" ]} ∅))
            "@DataDog/Agent-X" false _ _).
  - discriminate.
  - vm_compute. lia.
Defined.

(** The claim C5 as it is written fails: a team that owns one path first and
    that both maps lack is reported by two lines, not once. *)
Lemma audit_reports_twice :
  check_for_missing_owners_slack_and_jira true
    (mkOwners [mkPath (String.eqb "/pkg/") "/pkg/" [("TEAM", "@DataDog/agent-x")] 1 None])
    ∅ ∅
  = (true, ["The team @DataDog/agent-x doesn't have a slack team assigned !!";
            "The team @DataDog/agent-x doesn't have a jira project assigned !!"])
  /\ length (reports_of "@DataDog/agent-x"
               (snd (check_for_missing_owners_slack_and_jira true
                       (mkOwners [mkPath (String.eqb "/pkg/") "/pkg/"
                                    [("TEAM", "@DataDog/agent-x")] 1 None])
                       ∅ ∅)))
     = 2.
Proof. split; reflexivity. Qed.

(** ** Loading the channel and project maps *)

Lemma load_items_other (file_name ph dv key : string) (items : list (yaml * yaml)) :
  YStr key ∉ items.*1 ->
  forall acc m, load_items file_name ph dv items acc = Ok m -> m !! key = acc !! key.
Proof.
  induction items as [|[k v] items IH]; intros Hnot acc m; simpl.
  - now intros [= <-].
  - rewrite fmap_cons, not_elem_of_cons in Hnot. destruct Hnot as [Hk Hnot].
    destruct k as [k|]; [|discriminate]. destruct v as [v|]; [|discriminate].
    intros H. rewrite (IH Hnot _ _ H). apply lookup_insert_ne.
    intros ->. now apply Hk.
Qed.

Lemma load_items_lookup (file_name ph dv key value : string) (items : list (yaml * yaml)) :
  NoDup items.*1 ->
  (YStr key, YStr value) ∈ items ->
  forall acc m, load_items file_name ph dv items acc = Ok m ->
  m !! key = Some (if String.eqb value ph then dv else value).
Proof.
  induction items as [|[k v] items IH]; intros Hnodup Hin acc m.
  - now apply elem_of_nil in Hin.
  - rewrite fmap_cons in Hnodup.
    pose proof (NoDup_cons_1_1 _ _ Hnodup) as Hk.
    apply NoDup_cons_1_2 in Hnodup.
    apply elem_of_cons in Hin as [[= <- <-] | Hin]; simpl.
    + intros H. rewrite (load_items_other _ _ _ _ _ Hk _ _ H). apply lookup_insert_eq.
    + destruct k as [k|]; [|discriminate]. destruct v as [v|]; [|discriminate].
      now apply IH.
Qed.

Lemma load_items_raise (file_name ph dv : string) (pre post : list (yaml * yaml))
    (key value : yaml) :
  forallb string_item pre = true ->
  string_item (key, value) = false ->
  forall acc, load_items file_name ph dv (pre ++ (key, value) :: post) acc
              = Raise (ValueError (non_string_message file_name key value)).
Proof.
  intros Hpre Hbad. induction pre as [|[k v] pre IH]; intros acc; simpl.
  - destruct key, value; try reflexivity. discriminate Hbad.
  - simpl in Hpre. apply andb_prop in Hpre as [Hkv Hpre].
    destruct k, v; try discriminate Hkv. now apply IH.
Qed.

Lemma load_items_ok (file_name ph dv : string) (items : list (yaml * yaml)) :
  forallb string_item items = true ->
  forall acc, is_ok (load_items file_name ph dv items acc) = true.
Proof.
  induction items as [|[k v] items IH]; intros Hall acc; [reflexivity|].
  simpl in Hall. apply andb_prop in Hall as [Hkv Hall].
  destruct k, v; try discriminate Hkv. simpl. now apply IH.
Qed.

(** The first item that is not a pair of strings. *)
Lemma first_non_string (items : list (yaml * yaml)) :
  forallb string_item items = false ->
  exists pre key value post,
    items = pre ++ (key, value) :: post
    /\ forallb string_item pre = true /\ string_item (key, value) = false.
Proof.
  induction items as [|[k v] items IH]; [discriminate|].
  simpl. destruct (string_item (k, v)) eqn:Hkv; simpl.
  - intros (pre & key & value & post & -> & Hpre & Hbad)%IH.
    exists ((k, v) :: pre), key, value, post. simpl. now rewrite Hkv, Hpre.
  - intros _. exists [], k, v, items. auto.
Qed.

(** C9. When the source of a map holds an item whose key or value is not a
    string, [load_and_validate] raises a [ValueError] that names the file and
    the first such item, and returns no mapping.  When all the items are
    strings it returns the mapping, in which a key whose value is the
    placeholder has the default value and every other key has its value. *)
Theorem load_and_validate_checks (file_name default_placeholder default_value : string)
    (items : list (yaml * yaml)) :
  (forallb string_item items = false ->
   exists pre key value post,
     items = pre ++ (key, value) :: post
     /\ forallb string_item pre = true /\ string_item (key, value) = false
     /\ load_and_validate file_name items default_placeholder default_value
        = Raise (ValueError
                   ("File " +:+ file_name +:+ " contains a non-string key or value. Key: "
                    +:+ yaml_show key +:+ ", Value: " +:+ yaml_show value)))
  /\ (forallb string_item items = true ->
      NoDup items.*1 ->
      exists m,
        load_and_validate file_name items default_placeholder default_value = Ok m
        /\ (forall key, (YStr key, YStr default_placeholder) ∈ items ->
                        m !! key = Some default_value)
        /\ (forall key value, (YStr key, YStr value) ∈ items ->
                              value <> default_placeholder -> m !! key = Some value)).
Proof.
  unfold load_and_validate. split.
  - intros (pre & key & value & post & -> & Hpre & Hbad)%first_non_string.
    exists pre, key, value, post. repeat split; try assumption.
    now apply load_items_raise.
  - intros Hall Hnodup.
    pose proof (load_items_ok file_name default_placeholder default_value items Hall ∅) as Hok.
    destruct (load_items file_name default_placeholder default_value items ∅) as [m|e] eqn:Hm;
      [|discriminate].
    exists m. split; [reflexivity|]. split.
    + intros key Hin.
      rewrite (load_items_lookup _ _ _ _ _ _ Hnodup Hin _ _ Hm).
      now rewrite String.eqb_refl.
    + intros key value Hin Hne.
      rewrite (load_items_lookup _ _ _ _ _ _ Hnodup Hin _ _ Hm).
      apply String.eqb_neq in Hne. now rewrite Hne.
Qed.

Lemma load_and_validate_checks_witness :
  (exists pre key value post,
     [(YStr "@datadog/agent-x", YStr "#agent-x"); (YStr "@datadog/agent-y", YOther "42")]
     = pre ++ (key, value) :: post
     /\ forallb string_item pre = true /\ string_item (key, value) = false
     /\ load_and_validate "github_slack_map.yaml"
          [(YStr "@datadog/agent-x", YStr "#agent-x"); (YStr "@datadog/agent-y", YOther "42")]
          "DEFAULT_SLACK_CHANNEL" DEFAULT_SLACK_CHANNEL
        = Raise (ValueError
                   ("File " +:+ "github_slack_map.yaml"
                    +:+ " contains a non-string key or value. Key: "
                    +:+ yaml_show key +:+ ", Value: " +:+ yaml_show value)))
  /\ (exists m,
        load_and_validate "github_slack_map.yaml"
          [(YStr "@datadog/agent-x", YStr "DEFAULT_SLACK_CHANNEL")]
          "DEFAULT_SLACK_CHANNEL" DEFAULT_SLACK_CHANNEL = Ok m
        /\ (forall key, (YStr key, YStr "DEFAULT_SLACK_CHANNEL")
                        ∈ [(YStr "@datadog/agent-x", YStr "DEFAULT_SLACK_CHANNEL")] ->
                        m !! key = Some DEFAULT_SLACK_CHANNEL)
        /\ (forall key value, (YStr key, YStr value)
                              ∈ [(YStr "@datadog/agent-x", YStr "DEFAULT_SLACK_CHANNEL")] ->
                              value <> "DEFAULT_SLACK_CHANNEL" -> m !! key = Some value)).
Proof.
  split.
  - exact (proj1 (load_and_validate_checks "github_slack_map.yaml"
                    "DEFAULT_SLACK_CHANNEL" DEFAULT_SLACK_CHANNEL
                    [(YStr "@datadog/agent-x", YStr "#agent-x");
                     (YStr "@datadog/agent-y", YOther "42")]) eq_refl).
  - refine (proj2 (load_and_validate_checks "github_slack_map.yaml"
                     "DEFAULT_SLACK_CHANNEL" DEFAULT_SLACK_CHANNEL
                     [(YStr "@datadog/agent-x", YStr "DEFAULT_SLACK_CHANNEL")]) eq_refl _).
    apply NoDup_singleton.
Defined.

(** ** The parser as a sequence of effects *)

Lemma process_line_effect (ft : gmap (pykey * pykey) Test) (l : line) :
  process_line ft l = line_effect l ≫= fun e => Ok (apply_effect e ft).
Proof.
  unfold process_line, line_effect.
  destruct (json_loads l) as [j|]; [|reflexivity]. simpl.
  destruct (py_in "Test" j) as [[|]|]; try reflexivity. simpl.
  destruct (getitem j "Test") as [nm|]; [|reflexivity]. simpl.
  destruct (getitem j "Package") as [pkg|]; [|reflexivity]. simpl.
  destruct (getitem j "Action") as [act|]; [|reflexivity]. simpl.
  destruct (json_eq_str act "fail").
  - destruct (py_in "/" nm) as [[|]|]; try reflexivity. simpl.
    now destruct (tuple_key pkg nm).
  - destruct (json_eq_str act "pass"); [|reflexivity].
    destruct (tuple_key pkg nm) as [key|]; [|reflexivity]. simpl.
    case_bool_decide as Hin; [reflexivity|].
    f_equal. symmetry. apply delete_id. now apply eq_None_not_Some.
Qed.

Lemma process_lines_effects (lines : list line) :
  forall ft, process_lines ft lines
             = line_effects lines ≫= fun es => Ok (apply_effects es ft).
Proof.
  induction lines as [|l lines IH]; intros ft; [reflexivity|].
  simpl. rewrite process_line_effect.
  destruct (line_effect l) as [e|]; [|reflexivity]. simpl.
  rewrite IH. now destruct (line_effects lines).
Qed.

Lemma lookup_apply_effect (e : effect) (m : gmap (pykey * pykey) Test) (k : pykey * pykey) :
  apply_effect e m !! k = match effect_on k e with Some r => r | None => m !! k end.
Proof.
  destruct e as [|key t|key]; simpl; [reflexivity| |]; destruct (decide (key = k)) as [->|Hne].
  - apply lookup_insert_eq.
  - now apply lookup_insert_ne.
  - apply lookup_delete_eq.
  - now apply lookup_delete_ne.
Qed.

Lemma lookup_apply_effects (es : list effect) (k : pykey * pykey) :
  forall m, apply_effects es m !! k
            = match last_effect_on k es with Some r => r | None => m !! k end.
Proof.
  unfold apply_effects.
  induction es as [|e es IH]; intros m; [reflexivity|].
  simpl. rewrite IH. destruct (last_effect_on k es); [reflexivity|].
  apply lookup_apply_effect.
Qed.

Lemma apply_effects_twice (es : list effect) (m : gmap (pykey * pykey) Test) :
  apply_effects es (apply_effects es m) = apply_effects es m.
Proof.
  apply map_eq. intros k. rewrite !lookup_apply_effects.
  now destruct (last_effect_on k es).
Qed.

Lemma last_effect_on_app (k : pykey * pykey) (a b : list effect) :
  last_effect_on k (a ++ b)
  = match last_effect_on k b with Some r => Some r | None => last_effect_on k a end.
Proof.
  induction a as [|e a IH]; simpl.
  - now destruct (last_effect_on k b).
  - rewrite IH. now destruct (last_effect_on k b).
Qed.

Lemma last_effect_on_none (k : pykey * pykey) (es : list effect) :
  last_effect_on k es = None -> Forall (fun e => effect_on k e = None) es.
Proof.
  induction es as [|e es IH]; simpl; [constructor|].
  destruct (last_effect_on k es); [discriminate|].
  intros He. constructor; [exact He | now apply IH].
Qed.

(** The key is stored when the last effect on it stores it: some effect
    stores it and no effect after that one removes it. *)
Lemma last_effect_on_stored (k : pykey * pykey) (es : list effect) :
  (exists t, last_effect_on k es = Some (Some t))
  <-> exists a t b, es = a ++ Put k t :: b /\ Forall (fun e => e <> Del k) b.
Proof.
  split.
  - induction es as [|e es IH]; simpl; [intros [t [=]]|].
    destruct (last_effect_on k es) as [r|] eqn:Hlast.
    + intros [t [= ->]]. destruct IH as (a & t' & b & -> & Hb); [eauto|].
      exists (e :: a), t', b. auto.
    + intros [t He]. destruct e as [|key t'|key]; simpl in He; try discriminate;
        destruct (decide (key = k)) as [->|]; try discriminate.
      exists [], t', es. split; [reflexivity|].
      eapply Forall_impl; [|exact (last_effect_on_none k es Hlast)].
      intros e' He' ->. simpl in He'. now destruct (decide (k = k)).
  - intros (a & t & b & -> & Hb). rewrite last_effect_on_app. simpl.
    assert (Hcases : last_effect_on k b = None \/ exists t', last_effect_on k b = Some (Some t')).
    { clear a t. induction Hb as [|e b He _ IH]; [now left|]. simpl.
      destruct IH as [-> | [t' ->]]; [|eauto].
      destruct e as [|key t'|key]; simpl; auto;
        destruct (decide (key = k)) as [->|]; eauto. contradiction. }
    destruct Hcases as [-> | [t' ->]]; [|eauto].
    simpl. destruct (decide (k = k)); [eauto | contradiction].
Qed.

Lemma line_effects_app_inv (lines : list line) (a b : list effect) (e : effect) :
  line_effects lines = Ok (a ++ e :: b) ->
  exists pre l post,
    lines = pre ++ l :: post /\ line_effects pre = Ok a
    /\ line_effect l = Ok e /\ line_effects post = Ok b.
Proof.
  revert lines. induction a as [|x a IH]; intros [|l lines]; simpl; try discriminate.
  - intros (e' & He & (es & Hes & [= <- <-])%bind_ok)%bind_ok.
    exists [], l, lines. auto.
  - intros (e' & He & (es & Hes & [= <- ->])%bind_ok)%bind_ok.
    destruct (IH _ Hes) as (pre & l' & post & -> & Hpre & Hl & Hpost).
    exists (l :: pre), l', post. simpl. rewrite He, Hpre. auto.
Qed.

Lemma line_effects_app (a b : list line) :
  line_effects (a ++ b)
  = line_effects a ≫= fun ea => line_effects b ≫= fun eb => Ok (ea ++ eb).
Proof.
  induction a as [|l a IH]; simpl.
  - now destruct (line_effects b).
  - destruct (line_effect l) as [e|]; [|reflexivity]. simpl. rewrite IH.
    destruct (line_effects a) as [ea|]; [|reflexivity]. simpl.
    now destruct (line_effects b).
Qed.

Lemma line_effects_In (lines : list line) (es : list effect) :
  line_effects lines = Ok es ->
  forall e, e ∈ es -> exists l, l ∈ lines /\ line_effect l = Ok e.
Proof.
  revert es. induction lines as [|l lines IH]; intros es; simpl.
  - intros [= <-] e He. now apply elem_of_nil in He.
  - intros (e' & He' & (es' & Hes & [= <-])%bind_ok)%bind_ok e
      [-> | He]%elem_of_cons.
    + exists l. split; [apply elem_of_cons; now left | assumption].
    + destruct (IH _ Hes _ He) as (l' & Hl' & Hel').
      exists l'. split; [apply elem_of_cons; now right | assumption].
Qed.

Lemma line_effects_Forall (lines : list line) (es : list effect) (P : line -> Prop)
    (Q : effect -> Prop) :
  (forall l e, P l -> line_effect l = Ok e -> Q e) ->
  Forall P lines -> line_effects lines = Ok es -> Forall Q es.
Proof.
  intros HPQ Hall. revert es. induction Hall as [|l lines Hl _ IH]; intros es; simpl.
  - intros [= <-]. constructor.
  - intros (e & He & (es' & Hes & [= <-])%bind_ok)%bind_ok.
    constructor; [now apply (HPQ l) | now apply IH].
Qed.

(** The lines that store the test (p, n) are its [fail] events, when the name
    has no slash; the lines that remove it are its [pass] events. *)
Lemma line_effect_put (l : line) (p n : string) (t : Test) :
  line_effect l = Ok (Put (KStr p, KStr n) t)
  <-> is_event "fail" p n l = true /\ mem_char "/" n = false
      /\ t = mkTest (JStr n) (JStr p).
Proof.
  split.
  - unfold line_effect. intros H.
    apply bind_ok in H as (j & Hj & H).
    destruct l as [|j']; [discriminate|]. injection Hj as ->.
    apply bind_ok in H as (has & Hhas & H). destruct has; [|discriminate].
    apply bind_ok in H as (nm & Hnm & H).
    apply bind_ok in H as (pkg & Hpkg & H).
    apply bind_ok in H as (act & Hact & H).
    apply getitem_ok in Hnm as (fields & -> & Hnm).
    apply getitem_ok in Hpkg as (fields' & [= <-] & Hpkg).
    apply getitem_ok in Hact as (fields' & [= <-] & Hact).
    destruct (json_eq_str act "fail") eqn:Hfail.
    + apply bind_ok in H as (sub & Hsub & H). destruct sub; [discriminate|].
      apply bind_ok in H as (key & Hkey & [= -> <-]).
      unfold tuple_key in Hkey.
      apply bind_ok in Hkey as (pk & Hpk & Hkey).
      apply bind_ok in Hkey as (nk & Hnk & [= -> ->]).
      apply hash_key_str in Hpk as ->. apply hash_key_str in Hnk as ->.
      injection Hsub as Hsub. rewrite contains_char in Hsub.
      split; [|split; [exact Hsub | reflexivity]].
      simpl. rewrite Hnm, Hpkg, Hact. simpl. now rewrite !String.eqb_refl, Hfail.
    + destruct (json_eq_str act "pass"); [|discriminate].
      now apply bind_ok in H as (key & Hkey & [=]).
  - intros (Hev & Hn & ->).
    destruct l as [|[| | | | |fields]]; try discriminate. simpl in Hev.
    destruct (assoc "Test" fields) as [nm|] eqn:Hnm; [|discriminate].
    destruct (assoc "Package" fields) as [pkg|] eqn:Hp; [|discriminate].
    destruct (assoc "Action" fields) as [act|] eqn:Ha; [|discriminate].
    apply andb_prop in Hev as [[->%json_eq_str_true ->%json_eq_str_true]%andb_prop
                                 ->%json_eq_str_true].
    unfold line_effect. simpl. rewrite Hnm, Hp, Ha. simpl.
    rewrite contains_char, Hn. reflexivity.
Qed.

Lemma line_effect_del (l : line) (p n : string) :
  line_effect l = Ok (Del (KStr p, KStr n)) <-> is_event "pass" p n l = true.
Proof.
  split.
  - unfold line_effect. intros H.
    apply bind_ok in H as (j & Hj & H).
    destruct l as [|j']; [discriminate|]. injection Hj as ->.
    apply bind_ok in H as (has & Hhas & H). destruct has; [|discriminate].
    apply bind_ok in H as (nm & Hnm & H).
    apply bind_ok in H as (pkg & Hpkg & H).
    apply bind_ok in H as (act & Hact & H).
    apply getitem_ok in Hnm as (fields & -> & Hnm).
    apply getitem_ok in Hpkg as (fields' & [= <-] & Hpkg).
    apply getitem_ok in Hact as (fields' & [= <-] & Hact).
    destruct (json_eq_str act "fail") eqn:Hfail.
    + apply bind_ok in H as (sub & Hsub & H). destruct sub; [discriminate|].
      now apply bind_ok in H as (key & Hkey & [=]).
    + destruct (json_eq_str act "pass") eqn:Hpass; [|discriminate].
      apply bind_ok in H as (key & Hkey & [= ->]).
      unfold tuple_key in Hkey.
      apply bind_ok in Hkey as (pk & Hpk & Hkey).
      apply bind_ok in Hkey as (nk & Hnk & [= -> ->]).
      apply hash_key_str in Hpk as ->. apply hash_key_str in Hnk as ->.
      simpl. rewrite Hnm, Hpkg, Hact. simpl. now rewrite !String.eqb_refl, Hpass.
  - destruct l as [|[| | | | |fields]]; try discriminate. simpl.
    destruct (assoc "Test" fields) as [nm|] eqn:Hn; [|discriminate].
    destruct (assoc "Package" fields) as [pkg|] eqn:Hp; [|discriminate].
    destruct (assoc "Action" fields) as [act|] eqn:Ha; [|discriminate].
    intros [[->%json_eq_str_true ->%json_eq_str_true]%andb_prop
              ->%json_eq_str_true]%andb_prop.
    unfold line_effect. simpl. rewrite Hn, Hp, Ha. reflexivity.
Qed.

Lemma passed_over_effect (l : line) : passed_over l = true -> line_effect l = Ok Keep.
Proof.
  destruct l as [|[| | | | |fields]]; try discriminate. simpl.
  destruct (assoc "Test" fields) as [nm|] eqn:Hn.
  - destruct (assoc "Package" fields) as [pkg|] eqn:Hp; [|discriminate].
    destruct (assoc "Action" fields) as [act|] eqn:Ha; [|discriminate].
    intros Hover. unfold line_effect. simpl. rewrite Hn, Hp, Ha. simpl.
    destruct (json_eq_str act "fail").
    + destruct nm as [| | |n| |]; try discriminate. simpl.
      now rewrite contains_char, Hover.
    + apply negb_true_iff in Hover. now rewrite Hover.
  - intros _. unfold line_effect. simpl. now rewrite Hn.
Qed.

Lemma last_effect_on_stored_inv (k : pykey * pykey) (es : list effect) (t : Test) :
  last_effect_on k es = Some (Some t) ->
  exists a b, es = a ++ Put k t :: b /\ Forall (fun e => e <> Del k) b.
Proof.
  induction es as [|e es IH]; simpl; [discriminate|].
  destruct (last_effect_on k es) as [r|] eqn:Hlast.
  - intros [= ->]. destruct (IH eq_refl) as (a & b & -> & Hb).
    exists (e :: a), b. auto.
  - intros He. destruct e as [|key t'|key]; simpl in He; try discriminate;
      destruct (decide (key = k)) as [->|]; try discriminate.
    injection He as ->. exists [], es. split; [reflexivity|].
    eapply Forall_impl; [|exact (last_effect_on_none k es Hlast)].
    intros e' He' ->. simpl in He'. now destruct (decide (k = k)).
Qed.

Lemma line_effects_elem (lines : list line) (es : list effect) (l : line) :
  line_effects lines = Ok es -> l ∈ lines ->
  exists e, line_effect l = Ok e /\ e ∈ es.
Proof.
  revert es. induction lines as [|l' lines IH]; intros es; simpl.
  - intros _ Hl. now apply elem_of_nil in Hl.
  - intros (e' & He' & (es' & Hes & [= <-])%bind_ok)%bind_ok [-> | Hl]%elem_of_cons.
    + exists e'. split; [assumption | apply elem_of_cons; now left].
    + destruct (IH _ Hes Hl) as (e & He & Hin).
      exists e. split; [assumption | apply elem_of_cons; now right].
Qed.

Lemma failed_tests_of_effects (lines : list line) (ft : gmap (pykey * pykey) Test) :
  failed_tests_of lines = Ok ft ->
  exists es, line_effects lines = Ok es /\ ft = apply_effects es ∅.
Proof.
  unfold failed_tests_of. rewrite process_lines_effects.
  intros (es & Hes & H)%bind_ok. exists es. split; [assumption | congruence].
Qed.

(** X1.  Replaying a stream after itself changes nothing: the parse of the stream
    written twice is the parse of the stream, exceptions included. *)
Theorem replay_idempotent (lines : list line) :
  failed_tests_of (lines ++ lines) = failed_tests_of lines.
Proof.
  unfold failed_tests_of. rewrite process_lines_app, (process_lines_effects lines ∅).
  destruct (line_effects lines) as [es|e] eqn:Hes; [|reflexivity].
  simpl. rewrite process_lines_effects, Hes. simpl.
  now rewrite apply_effects_twice.
Qed.

(** X2.  A test is in the final mapping exactly when the stream has a [fail] event
    of the test, whose name has no slash, with no [pass] event of the test
    after it; the record stored is the one of that name and package. *)
Theorem reported_iff_failed_last (lines : list line) (ft : gmap (pykey * pykey) Test)
    (p n : string) :
  failed_tests_of lines = Ok ft ->
  (is_Some (ft !! (KStr p, KStr n))
   <-> exists pre l post,
         lines = pre ++ l :: post
         /\ is_event "fail" p n l = true /\ mem_char "/" n = false
         /\ Forall (fun l' => is_event "pass" p n l' = false) post)
  /\ (forall t, ft !! (KStr p, KStr n) = Some t -> t = mkTest (JStr n) (JStr p)).
Proof.
  intros (es & Hes & ->)%failed_tests_of_effects.
  assert (Hstored : forall t, apply_effects es ∅ !! (KStr p, KStr n) = Some t ->
            exists pre l post,
              lines = pre ++ l :: post
              /\ line_effect l = Ok (Put (KStr p, KStr n) t)
              /\ Forall (fun l' => is_event "pass" p n l' = false) post).
  { intros t Ht. rewrite lookup_apply_effects, lookup_empty in Ht.
    destruct (last_effect_on (KStr p, KStr n) es) as [r|] eqn:Hlast; [|discriminate].
    subst r. apply last_effect_on_stored_inv in Hlast as (a & b & -> & Hb).
    apply line_effects_app_inv in Hes as (pre & l & post & -> & _ & Hl & Hpost).
    exists pre, l, post. repeat split; try assumption.
    apply Forall_forall. intros l' Hl'.
    destruct (is_event "pass" p n l') eqn:Hpass; [|reflexivity].
    apply line_effect_del in Hpass.
    apply list_elem_of_In in Hl'.
    destruct (line_effects_elem _ _ _ Hpost Hl') as (e & He & Hin).
    rewrite Hpass in He. injection He as <-.
    rewrite Forall_forall in Hb. apply list_elem_of_In in Hin.
    now destruct (Hb _ Hin). }
  split; [split|].
  - intros [t Ht]. destruct (Hstored t Ht) as (pre & l & post & -> & Hl & Hpost).
    apply line_effect_put in Hl as (Hev & Hn & _).
    exists pre, l, post. auto.
  - intros (pre & l & post & -> & Hev & Hn & Hpost).
    rewrite line_effects_app in Hes.
    apply bind_ok in Hes as (ea & Hea & Hes). simpl in Hes.
    apply bind_ok in Hes as (eb' & Heb' & [= <-]).
    apply bind_ok in Heb' as (e & He & Heb').
    apply bind_ok in Heb' as (eb & Heb & [= <-]).
    assert (He' : line_effect l = Ok (Put (KStr p, KStr n) (mkTest (JStr n) (JStr p))))
      by now apply line_effect_put.
    rewrite He' in He. injection He as <-.
    rewrite lookup_apply_effects, lookup_empty.
    assert (Hlast : exists t, last_effect_on (KStr p, KStr n)
                                (ea ++ Put (KStr p, KStr n) (mkTest (JStr n) (JStr p)) :: eb)
                              = Some (Some t)).
    { apply last_effect_on_stored. exists ea, (mkTest (JStr n) (JStr p)), eb.
      split; [reflexivity|].
      apply (line_effects_Forall post eb
               (fun l' => is_event "pass" p n l' = false)); [|assumption|assumption].
      intros l' e Hl' Hle ->. apply line_effect_del in Hle. congruence. }
    destruct Hlast as [t ->]. eauto.
  - intros t Ht. destruct (Hstored t Ht) as (pre & l & post & -> & Hl & Hpost).
    now apply line_effect_put in Hl as (_ & _ & ->).
Qed.

Lemma reported_iff_failed_last_witness :
  is_Some (({[ (KStr "pkgA", KStr "T2") := mkTest (JStr "T2") (JStr "pkgA") ]}
              : gmap (pykey * pykey) Test) !! (KStr "pkgA", KStr "T2")).
Proof.
  refine (proj2 (proj1 (reported_iff_failed_last
            [event "fail" "pkgA" "T1"; event "fail" "pkgA" "T2"; event "pass" "pkgA" "T1"]
            _ "pkgA" "T2" _)) _).
  - run_events. reflexivity.
  - exists [event "fail" "pkgA" "T1"], (event "fail" "pkgA" "T2"),
      [event "pass" "pkgA" "T1"].
    repeat split. repeat constructor.
Defined.

(** X3.  The lines the parser passes over (the log lines without a [Test] key,
    the events of other actions such as [run], [output] or [skip], the [fail]
    events of subtests) can be taken out of the stream: the result is the
    same. *)
Theorem passed_over_lines_dropped (lines : list line) :
  failed_tests_of (List.filter (fun l => negb (passed_over l)) lines)
  = failed_tests_of lines.
Proof.
  unfold failed_tests_of. generalize (∅ : gmap (pykey * pykey) Test).
  induction lines as [|l lines IH]; intros ft; [reflexivity|].
  cbn [List.filter]. destruct (passed_over l) eqn:Hover; cbn [negb].
  - rewrite IH. cbn [process_lines].
    now rewrite process_line_effect, (passed_over_effect l Hover).
  - cbn [process_lines]. destruct (process_line ft l) as [ft'|e]; [apply IH | reflexivity].
Qed.

(** X4.  A test event without the key [Package], or with it and without the key
    [Action], ends the parse with a [KeyError] of that key, whatever its
    action would be; a line that decodes to null, a boolean or a number ends
    it with a [TypeError]. *)
Theorem parse_error_on_bad_event (pre post : list line) :
  is_ok (failed_tests_of pre) = true ->
  (forall fields,
     is_Some (assoc "Test" fields) -> assoc "Package" fields = None ->
     failed_tests_of (pre ++ Decoded (JObj fields) :: post) = Raise (KeyError "Package"))
  /\ (forall fields,
        is_Some (assoc "Test" fields) -> is_Some (assoc "Package" fields) ->
        assoc "Action" fields = None ->
        failed_tests_of (pre ++ Decoded (JObj fields) :: post) = Raise (KeyError "Action"))
  /\ (forall j,
        match j with JNull | JBool _ | JInt _ => True | _ => False end ->
        failed_tests_of (pre ++ Decoded j :: post) = Raise TypeError).
Proof.
  unfold failed_tests_of. intros Hpre.
  destruct (process_lines ∅ pre) as [ft|] eqn:Hft; [|discriminate].
  split; [|split].
  - intros fields [nm Hnm] Hp. rewrite process_lines_app, Hft. simpl.
    rewrite process_line_effect. unfold line_effect. simpl. now rewrite Hnm, Hp.
  - intros fields [nm Hnm] [pkg Hp] Ha. rewrite process_lines_app, Hft. simpl.
    rewrite process_line_effect. unfold line_effect. simpl. now rewrite Hnm, Hp, Ha.
  - intros j Hj. rewrite process_lines_app, Hft. simpl.
    rewrite process_line_effect. now destruct j.
Qed.

Lemma parse_error_on_bad_event_witness :
  failed_tests_of
    ([event "fail" "pkgA" "T1"]
       ++ Decoded (JObj [("Action", JStr "output"); ("Test", JStr "T2")]) :: [])
  = Raise (KeyError "Package").
Proof.
  refine (proj1 (parse_error_on_bad_event [event "fail" "pkgA" "T1"] [] _)
            [("Action", JStr "output"); ("Test", JStr "T2")] _ _).
  - apply process_lines_events. repeat constructor. now exists "fail", "pkgA", "T1".
  - simpl. eauto.
  - reflexivity.
Defined.

(** ** More on the routing *)

Lemma filed_optional_infra (fj : FailedJobs) (j : ProjectJob) :
  filed fj = true -> j ∈ optional_infra_job_failures fj ->
  infra j = true /\ mandatory j = false.
Proof.
  unfold filed. rewrite !andb_true_iff, !forallb_forall. intros [_ H4] Hj.
  apply list_elem_of_In, H4 in Hj. apply andb_prop in Hj as [Hi Hm].
  split; [exact Hi | now apply negb_true_iff].
Qed.

(** X5.  The routing invents no job: a job of a bucket is one of the failed jobs,
    an e2e infrastructure failure in the bucket of the fallback owner or a
    failure that is not an infrastructure failure in the bucket of a team of
    its name. *)
Theorem routed_jobs_are_failed_jobs (failed_jobs : FailedJobs) (owners : CodeOwners)
    (owner : string) (job : ProjectJob) :
  in_bucket (find_job_owners failed_jobs owners) owner job ->
  job ∈ all_failures failed_jobs
  /\ ((owner = "@DataDog/agent-e2e-testing"
       /\ failure_reason job = E2E_INFRA_FAILURE
       /\ job ∈ mandatory_infra_job_failures failed_jobs)
      \/ (job ∈ all_non_infra_failures failed_jobs
          /\ ("TEAM", owner) ∈ of_ owners (name job))).
Proof.
  intros [(-> & Hin & Hr) | [Hin Hteam]]%in_bucket_find_job_owners.
  - split; [|left; auto]. unfold all_failures. rewrite !elem_of_app. auto.
  - split; [|right; auto].
    unfold all_failures, all_non_infra_failures in *.
    rewrite !elem_of_app. apply elem_of_app in Hin. tauto.
Qed.

Lemma routed_jobs_are_failed_jobs_witness :
  mkJob 5 "tests_deb" TEST_FAILURE true false
    ∈ all_failures (mkFailedJobs [mkJob 5 "tests_deb" TEST_FAILURE true false] [] [] []).
Proof.
  refine (proj1 (routed_jobs_are_failed_jobs
            (mkFailedJobs [mkJob 5 "tests_deb" TEST_FAILURE true false] [] [] [])
            (mkOwners [mkPath (String.eqb "tests_deb") "tests_deb"
                         [("TEAM", "@DataDog/agent-a")] 1 None])
            "@DataDog/agent-a" (mkJob 5 "tests_deb" TEST_FAILURE true false) _)).
  apply in_bucket_find_job_owners. right. split.
  - apply list_elem_of_singleton. reflexivity.
  - apply list_elem_of_singleton. reflexivity.
Defined.

(** X6.  In the routing of a collection built by [add_failed_job], the
    infrastructure failures that are optional, and the mandatory ones whose
    reason is not the e2e infrastructure failure, are in no bucket: nobody is
    notified of them. *)
Theorem other_infra_failures_not_routed (failed_jobs : FailedJobs) (owners : CodeOwners)
    (job : ProjectJob) :
  filed failed_jobs = true ->
  job ∈ optional_infra_job_failures failed_jobs
  \/ (job ∈ mandatory_infra_job_failures failed_jobs
      /\ failure_reason job <> E2E_INFRA_FAILURE) ->
  forall owner, ~ in_bucket (find_job_owners failed_jobs owners) owner job.
Proof.
  intros Hfiled Hjob owner Hin.
  destruct (filed_flags failed_jobs job Hfiled) as (Hnon & Hmand & _).
  assert (Hinfra : infra job = true).
  { destruct Hjob as [Hopt | [Hm _]].
    - now apply (filed_optional_infra failed_jobs job Hfiled).
    - now apply Hmand. }
  apply in_bucket_find_job_owners in Hin as [(_ & Hm & Hr) | [Hni _]].
  - destruct Hjob as [Hopt | [_ Hne]]; [|contradiction].
    destruct (filed_optional_infra failed_jobs job Hfiled Hopt) as [_ Hfalse].
    destruct (Hmand Hm) as [_ Htrue]. congruence.
  - rewrite (Hnon Hni) in Hinfra. discriminate.
Qed.

Lemma other_infra_failures_not_routed_witness :
  ~ in_bucket
      (find_job_owners
         (mkFailedJobs [] [] [] [mkJob 9 "new-e2e-optional" E2E_INFRA_FAILURE false true])
         (mkOwners [mkPath (String.eqb "new-e2e-optional") "new-e2e-optional"
                      [("TEAM", "@DataDog/agent-a")] 1 None]))
      "@DataDog/agent-e2e-testing"
      (mkJob 9 "new-e2e-optional" E2E_INFRA_FAILURE false true).
Proof.
  refine (other_infra_failures_not_routed
            (mkFailedJobs [] [] [] [mkJob 9 "new-e2e-optional" E2E_INFRA_FAILURE false true])
            _ (mkJob 9 "new-e2e-optional" E2E_INFRA_FAILURE false true)
            eq_refl _ "@DataDog/agent-e2e-testing").
  left. apply list_elem_of_singleton. reflexivity.
Defined.

Lemma bucket_add_filed (job : ProjectJob) (b : option FailedJobs) :
  (forall fj, b = Some fj -> filed fj = true) ->
  forall fj, bucket_add job b = Some fj -> filed fj = true.
Proof.
  intros Hb fj [= <-]. apply add_failed_job_filed.
  destruct b as [fj'|]; [now apply Hb | reflexivity].
Qed.

Lemma bucket_teams_filed (o : string) (job : ProjectJob) (kos : list (string * string)) :
  forall b, (forall fj, b = Some fj -> filed fj = true) ->
  forall fj, bucket_teams o job kos b = Some fj -> filed fj = true.
Proof.
  unfold bucket_teams. induction kos as [|ko kos IH]; intros b Hb; simpl; [exact Hb|].
  apply IH. destruct (is_team o ko); [now apply bucket_add_filed | exact Hb].
Qed.

Lemma bucket_jobs_filed (o : string) (f : ProjectJob -> list (string * string))
    (jobs : list ProjectJob) :
  forall b, (forall fj, b = Some fj -> filed fj = true) ->
  forall fj, bucket_jobs o f jobs b = Some fj -> filed fj = true.
Proof.
  unfold bucket_jobs. induction jobs as [|job jobs IH]; intros b Hb; simpl; [exact Hb|].
  apply IH. now apply bucket_teams_filed.
Qed.

Lemma bucket_e2e_filed (jobs : list ProjectJob) :
  forall b, (forall fj, b = Some fj -> filed fj = true) ->
  forall fj, bucket_e2e jobs b = Some fj -> filed fj = true.
Proof.
  unfold bucket_e2e. induction jobs as [|job jobs IH]; intros b Hb; simpl; [exact Hb|].
  apply IH. destruct (decide _); [now apply bucket_add_filed | exact Hb].
Qed.

(** X7.  Every bucket of the routing holds at least one job, and files each of
    its jobs under the flags of the job: the mandatory and the optional
    failures, of the infrastructure or not, stay apart in the bucket. *)
Theorem buckets_are_filed (failed_jobs : FailedJobs) (owners : CodeOwners)
    (owner : string) (bucket : FailedJobs) :
  find_job_owners failed_jobs owners !! owner = Some bucket ->
  filed bucket = true
  /\ all_failures bucket <> []
  /\ (forall job, job ∈ all_failures bucket ->
        (job ∈ mandatory_job_failures bucket <-> infra job = false /\ mandatory job = true)
        /\ (job ∈ optional_job_failures bucket <-> infra job = false /\ mandatory job = false)
        /\ (job ∈ mandatory_infra_job_failures bucket
            <-> infra job = true /\ mandatory job = true)
        /\ (job ∈ optional_infra_job_failures bucket
            <-> infra job = true /\ mandatory job = false)).
Proof.
  intros Hb.
  assert (Hfiled : filed bucket = true).
  { rewrite find_job_owners_lookup in Hb. revert Hb. apply bucket_jobs_filed.
    destruct (decide (E2E_OWNER = owner)); [|discriminate].
    apply bucket_e2e_filed. discriminate. }
  split; [exact Hfiled|]. split.
  - destruct (bucket_not_empty failed_jobs owners owner) as (j & b & Hb' & Hj); [eauto|].
    rewrite Hb in Hb'. injection Hb' as <-. intros Hnil. rewrite Hnil in Hj.
    now apply elem_of_nil in Hj.
  - intros job Hjob. unfold filed in Hfiled.
    rewrite !andb_true_iff, !forallb_forall in Hfiled.
    destruct Hfiled as [[[H1 H2] H3] H4].
    assert (F1 : job ∈ mandatory_job_failures bucket -> infra job = false /\ mandatory job = true).
    { intros H%list_elem_of_In%H1. now destruct (infra job), (mandatory job). }
    assert (F2 : job ∈ optional_job_failures bucket -> infra job = false /\ mandatory job = false).
    { intros H%list_elem_of_In%H2. now destruct (infra job), (mandatory job). }
    assert (F3 : job ∈ mandatory_infra_job_failures bucket
                 -> infra job = true /\ mandatory job = true).
    { intros H%list_elem_of_In%H3. now destruct (infra job), (mandatory job). }
    assert (F4 : job ∈ optional_infra_job_failures bucket
                 -> infra job = true /\ mandatory job = false).
    { intros H%list_elem_of_In%H4. now destruct (infra job), (mandatory job). }
    unfold all_failures in Hjob. rewrite !elem_of_app in Hjob.
    split; [|split; [|split]];
      (split; [assumption|]); intros [Hi Hm];
      destruct Hjob as [Hj | [Hj | [Hj | Hj]]]; try assumption;
      first [ destruct (F1 Hj) | destruct (F2 Hj) | destruct (F3 Hj) | destruct (F4 Hj) ];
      congruence.
Qed.

Lemma buckets_are_filed_witness :
  filed (mkFailedJobs [mkJob 5 "tests_deb" TEST_FAILURE true false] [] [] []) = true
  /\ all_failures (mkFailedJobs [mkJob 5 "tests_deb" TEST_FAILURE true false] [] [] []) <> [].
Proof.
  pose proof (buckets_are_filed
                (mkFailedJobs [mkJob 5 "tests_deb" TEST_FAILURE true false] [] [] [])
                (mkOwners [mkPath (String.eqb "tests_deb") "tests_deb"
                             [("TEAM", "@DataDog/agent-a")] 1 None])
                "@DataDog/agent-a"
                (mkFailedJobs [mkJob 5 "tests_deb" TEST_FAILURE true false] [] [] [])
                eq_refl) as (H1 & H2 & _).
  exact (conj H1 H2).
Defined.

(** X8.  The order of the failed jobs does not matter to the routing: two
    collections whose lists are permutations of each other give buckets to the
    same owners, with the same jobs in them. *)
Theorem routing_order_independent (failed_jobs failed_jobs' : FailedJobs)
    (owners : CodeOwners) :
  mandatory_job_failures failed_jobs ≡ₚ mandatory_job_failures failed_jobs' ->
  optional_job_failures failed_jobs ≡ₚ optional_job_failures failed_jobs' ->
  mandatory_infra_job_failures failed_jobs ≡ₚ mandatory_infra_job_failures failed_jobs' ->
  (forall owner job,
     in_bucket (find_job_owners failed_jobs owners) owner job
     <-> in_bucket (find_job_owners failed_jobs' owners) owner job)
  /\ (forall owner,
        is_Some (find_job_owners failed_jobs owners !! owner)
        <-> is_Some (find_job_owners failed_jobs' owners !! owner)).
Proof.
  intros Hm Ho Hi.
  assert (Hin : forall owner job,
     in_bucket (find_job_owners failed_jobs owners) owner job
     <-> in_bucket (find_job_owners failed_jobs' owners) owner job).
  { intros owner job. rewrite !in_bucket_find_job_owners.
    unfold all_non_infra_failures. rewrite !elem_of_app.
    rewrite (elem_of_Permutation_proper job _ _ Hm).
    rewrite (elem_of_Permutation_proper job _ _ Ho).
    rewrite (elem_of_Permutation_proper job _ _ Hi).
    reflexivity. }
  split; [exact Hin|].
  intros owner. split; intros Hsome.
  - apply bucket_not_empty in Hsome as [j Hj].
    apply Hin in Hj as (b & Hb & _). eauto.
  - apply bucket_not_empty in Hsome as [j Hj].
    apply Hin in Hj as (b & Hb & _). eauto.
Qed.

Lemma routing_order_independent_witness :
  let a := mkJob 1 "lint" TEST_FAILURE true false in
  let b := mkJob 2 "tests_deb" TEST_FAILURE true false in
  let owners := mkOwners [mkPath (String.eqb "lint") "lint" [("TEAM", "@DataDog/agent-a")] 1 None] in
  is_Some (find_job_owners (mkFailedJobs [a; b] [] [] []) owners !! "@DataDog/agent-a")
  <-> is_Some (find_job_owners (mkFailedJobs [b; a] [] [] []) owners !! "@DataDog/agent-a").
Proof.
  intros a b owners.
  refine (proj2 (routing_order_independent
            (mkFailedJobs [a; b] [] [] []) (mkFailedJobs [b; a] [] [] []) owners _ _ _)
            "@DataDog/agent-a").
  - apply Permutation_swap.
  - reflexivity.
  - reflexivity.
Defined.

(** ** More on the audit *)

Lemma path_head_only (slack jira : gmap string string) (e1 e2 : path_entry) :
  head (path_owners e1) = head (path_owners e2) ->
  path_gap slack jira e1 = path_gap slack jira e2
  /\ path_messages slack jira e1 = path_messages slack jira e2.
Proof.
  unfold path_gap, path_messages.
  destruct (path_owners e1) as [|[k1 t1] r1], (path_owners e2) as [|[k2 t2] r2];
    simpl; try discriminate; [auto|].
  intros [= -> ->]. auto.
Qed.

(** X9.  The audit reads the first owner of each path and nothing else of the
    table: two tables whose paths have the same first owners, in the same
    order, get the same verdict and the same printed lines; and printing does
    not change the verdict. *)
Theorem audit_reads_first_owners_only (owners owners' : CodeOwners)
    (slack jira : gmap string string) (print_missing_teams : bool) :
  List.map (fun e => head (path_owners e)) (paths owners)
  = List.map (fun e => head (path_owners e)) (paths owners') ->
  check_for_missing_owners_slack_and_jira print_missing_teams owners slack jira
  = check_for_missing_owners_slack_and_jira print_missing_teams owners' slack jira
  /\ fst (check_for_missing_owners_slack_and_jira true owners slack jira)
     = fst (check_for_missing_owners_slack_and_jira false owners' slack jira).
Proof.
  intros Hheads. unfold check_for_missing_owners_slack_and_jira.
  rewrite !check_paths_state. simpl.
  assert (H : existsb (path_gap slack jira) (paths owners)
              = existsb (path_gap slack jira) (paths owners')
              /\ flat_map (path_messages slack jira) (paths owners)
                 = flat_map (path_messages slack jira) (paths owners')).
  { revert Hheads. generalize (paths owners') as l2. generalize (paths owners) as l1.
    induction l1 as [|e1 l1 IH]; intros [|e2 l2]; simpl; try discriminate; [auto|].
    intros [= Hhead Htail]. destruct (IH _ Htail) as [-> ->].
    destruct (path_head_only slack jira e1 e2 Hhead) as [-> ->]. auto. }
  destruct H as [-> ->]. auto.
Qed.

Lemma audit_reads_first_owners_only_witness :
  check_for_missing_owners_slack_and_jira true
    (mkOwners [mkPath (String.eqb "/pkg/") "/pkg/"
                 [("TEAM", "@DataDog/agent-a"); ("TEAM", "@DataDog/agent-b")] 1 None])
    {[ "@datadog/agent-a" := "#agent-a" ]} {[ "@datadog/agent-a" := "AGNTA" ]}
  = check_for_missing_owners_slack_and_jira true
      (mkOwners [mkPath (String.eqb "/pkg/") "/pkg/" [("TEAM", "@DataDog/agent-a")] 1 None])
      {[ "@datadog/agent-a" := "#agent-a" ]} {[ "@datadog/agent-a" := "AGNTA" ]}.
Proof.
  refine (proj1 (audit_reads_first_owners_only _ _ _ _ true _)).
  reflexivity.
Defined.

(** ** More on the loaded maps *)

Lemma load_items_contents (file_name ph dv : string) (items : list (yaml * yaml)) :
  forall acc m,
    load_items file_name ph dv items acc = Ok m ->
    (forall k, is_Some (m !! k) <-> YStr k ∈ items.*1 \/ is_Some (acc !! k))
    /\ (forall k v, m !! k = Some v ->
          v = dv \/ (v <> ph /\ (YStr k, YStr v) ∈ items) \/ acc !! k = Some v).
Proof.
  induction items as [|[key value] items IH]; intros acc m; simpl.
  - intros [= <-]. split.
    + intros k. rewrite elem_of_nil. tauto.
    + auto.
  - destruct key as [key|]; [|discriminate]. destruct value as [value|]; [|discriminate].
    intros H. destruct (IH _ _ H) as [Hdom Hval]. split.
    + intros k. rewrite Hdom, elem_of_cons. simpl.
      destruct (decide (key = k)) as [->|Hne].
      * rewrite lookup_insert_eq. split; [auto|]. intros _. right. eauto.
      * rewrite lookup_insert_ne by exact Hne.
        split; [tauto|]. intros [[[= ->] | ?] | ?]; [contradiction | tauto | tauto].
    + intros k v Hk. destruct (Hval k v Hk) as [-> | [[Hne Hin] | Hacc]]; [auto | |].
      * right. left. split; [exact Hne | apply elem_of_cons; now right].
      * destruct (decide (key = k)) as [->|Hne].
        -- rewrite lookup_insert_eq in Hacc. injection Hacc as <-.
           destruct (String.eqb_spec value ph) as [->|Hvalue]; [now left|].
           right. left. split; [exact Hvalue | apply elem_of_cons; now left].
        -- rewrite lookup_insert_ne in Hacc by exact Hne. auto.
Qed.

(** X10.  The keys of a loaded map are the keys of the source, and each value is
    the default value or a value of the source for that key that is not the
    placeholder: the placeholder stays in the map only if it is the default
    value itself. *)
Theorem loaded_map_contents (file_name default_placeholder default_value : string)
    (items : list (yaml * yaml)) (m : gmap string string) :
  load_and_validate file_name items default_placeholder default_value = Ok m ->
  (forall key, is_Some (m !! key) <-> YStr key ∈ items.*1)
  /\ (forall key value, m !! key = Some value ->
        value = default_value
        \/ (value <> default_placeholder /\ (YStr key, YStr value) ∈ items))
  /\ (default_value <> default_placeholder ->
      forall key, m !! key <> Some default_placeholder).
Proof.
  unfold load_and_validate. intros H.
  destruct (load_items_contents _ _ _ _ _ _ H) as [Hdom Hval].
  assert (Hval' : forall key value, m !! key = Some value ->
            value = default_value
            \/ (value <> default_placeholder /\ (YStr key, YStr value) ∈ items)).
  { intros key value Hk. destruct (Hval key value Hk) as [? | [? | Hempty]]; auto.
    rewrite lookup_empty in Hempty. discriminate. }
  split; [|split; [exact Hval'|]].
  - intros key. rewrite Hdom. split; [|auto].
    intros [? | [? Hempty]]; [assumption|]. rewrite lookup_empty in Hempty. discriminate.
  - intros Hne key Hk. destruct (Hval' key _ Hk) as [Heq | [Hneq _]]; congruence.
Qed.

Lemma loaded_map_contents_witness :
  ({[ "@datadog/agent-x" := DEFAULT_JIRA_PROJECT ]} : gmap string string)
    !! "@datadog/agent-x" <> Some "DEFAULT_JIRA_PROJECT".
Proof.
  refine (proj2 (proj2 (loaded_map_contents "github_jira_map.yaml"
            "DEFAULT_JIRA_PROJECT" DEFAULT_JIRA_PROJECT
            [(YStr "@datadog/agent-x", YStr "DEFAULT_JIRA_PROJECT")] _ _)) _ "@datadog/agent-x").
  - reflexivity.
  - discriminate.
Defined.

(** ** The check of the file names *)

Lemma report_loop (cond : string -> bool) (message : string -> string)
    (files : list string) :
  forall failure printed,
    fold_left
      (fun '(failure, printed) filename =>
         if cond filename
         then (true, printed ++ [message filename])
         else (failure, printed))
      files (failure, printed)
    = (failure || existsb cond files,
       printed ++ List.map message (List.filter cond files)).
Proof.
  induction files as [|f files IH]; intros failure printed; simpl.
  - now rewrite orb_false_r, app_nil_r.
  - destruct (cond f); rewrite IH; simpl.
    + now rewrite orb_true_r, <- app_assoc.
    + reflexivity.
Qed.

Lemma filenames_run (win32 : bool) (stdout : string) :
  filenames win32 stdout
  = let files := str_split Ascii.zero stdout in
    ((if win32
      then ["Running on windows, no need to check filenames for illegal characters"]
      else "Checking filenames for illegal characters"
           :: List.map illegal_message (List.filter has_forbidden_char files))
     ++ "Checking filename length"
        :: List.map (too_long_message 160 255) (List.filter too_long files),
     if (negb win32 && existsb has_forbidden_char files) || existsb too_long files
     then Throw (Exit 1) else Return tt).
Proof.
  unfold filenames. cbv zeta. destruct win32.
  - rewrite report_loop. reflexivity.
  - rewrite !report_loop. cbn [orb negb andb app]. rewrite <- app_assoc. reflexivity.
Qed.

(** X15.  The task [filenames] ends with [Exit(code=1)] exactly when some listed
    path holds one of the forbidden characters, where the platform is not
    Windows, or is longer than 95 characters and is not under one of the four
    directories left out of the length check; otherwise it returns. *)
Theorem filenames_fails_iff (win32 : bool) (stdout : string) :
  (snd (filenames win32 stdout) = Throw (Exit 1)
   <-> exists filename,
         filename ∈ str_split Ascii.zero stdout
         /\ ((win32 = false /\ has_forbidden_char filename = true)
             \/ (str_startswith_any filename long_path_prefixes = false
                 /\ 95 < String.length filename)))
  /\ (snd (filenames win32 stdout) = Throw (Exit 1)
      \/ snd (filenames win32 stdout) = Return tt).
Proof.
  rewrite filenames_run. cbn [snd].
  set (files := str_split Ascii.zero stdout).
  split; [|destruct (_ || _); auto].
  destruct ((negb win32 && existsb has_forbidden_char files) || existsb too_long files)
    eqn:Hany.
  - split; [intros _|reflexivity].
    apply orb_prop in Hany as [[Hw Hex]%andb_prop | Hex];
      apply existsb_exists in Hex as (f & Hin & Hf);
      exists f; (split; [now apply list_elem_of_In|]).
    + left. split; [now destruct win32 | exact Hf].
    + right. unfold too_long in Hf. apply andb_prop in Hf as [He Hl].
      split; [now apply negb_true_iff | now apply Nat.ltb_lt].
  - split; [discriminate|]. intros (f & Hin & Hf). apply list_elem_of_In in Hin.
    apply orb_false_elim in Hany as [Hill Hlong].
    assert (Hnot : existsb too_long files = true
                   \/ (negb win32 && existsb has_forbidden_char files) = true);
      [|destruct Hnot; congruence].
    destruct Hf as [[-> Hf] | [He Hl]].
    + right. simpl. apply existsb_exists. eauto.
    + left. apply existsb_exists. exists f. split; [exact Hin|].
      unfold too_long. rewrite He. simpl. now apply Nat.ltb_lt.
Qed.

(** X16.  The lines the task prints: the line of the first check, with one line for
    each path that holds a forbidden character where the platform is not
    Windows; then the line of the length check, with one line for each path
    longer than 95 characters outside the directories left out, which tells
    by how many characters the path exceeds 95.  The paths keep the order of
    the listing. *)
Theorem filenames_report (win32 : bool) (stdout : string) :
  fst (filenames win32 stdout)
  = (if win32
     then ["Running on windows, no need to check filenames for illegal characters"]
     else "Checking filenames for illegal characters"
          :: List.map (fun filename => "Error: Found illegal character in path " +:+ filename)
               (List.filter has_forbidden_char (str_split Ascii.zero stdout)))
    ++ "Checking filename length"
       :: List.map
            (fun filename =>
               "Error: path " +:+ filename +:+ " is too long ("
                 +:+ pretty.pretty (String.length filename - 95) +:+ " characters too many)")
            (List.filter too_long (str_split Ascii.zero stdout)).
Proof.
  rewrite filenames_run. reflexivity.
Qed.

(** ** The author and the Slack identifier *)

Lemma replace_single (c : ascii) (new s : string) :
  PyStr.replace s (String c EmptyString) new = replace_char c new s.
Proof.
  unfold PyStr.replace. induction s as [|d s IH]; [reflexivity|].
  cbn [PyStr.replace_go replace_char String.prefix String.length Nat.sub].
  destruct (ascii_dec c d) as [<-|Hne].
  - rewrite prefix_nil, Ascii.eqb_refl. now rewrite IH.
  - destruct (Ascii.eqb_spec d c) as [->|]; [congruence|]. now rewrite IH.
Qed.

Lemma replace_char_removed (c : ascii) (s : string) :
  mem_char c (replace_char c EmptyString s) = false.
Proof.
  induction s as [|d s IH]; [reflexivity|]. simpl.
  destruct (Ascii.eqb d c) eqn:Hd; simpl; [exact IH | now rewrite Hd, IH].
Qed.

Lemma replace_char_absent (c : ascii) (new s : string) :
  mem_char c s = false -> replace_char c new s = s.
Proof.
  induction s as [|d s IH]; [reflexivity|]. simpl.
  intros [Hd Hs]%orb_false_elim. now rewrite Hd, (IH Hs).
Qed.

Lemma replace_char_app (c : ascii) (new a b : string) :
  replace_char c new (a +:+ b) = replace_char c new a +:+ replace_char c new b.
Proof.
  induction a as [|d a IH]; [reflexivity|]. simpl.
  destruct (Ascii.eqb d c); rewrite IH; [now rewrite append_assoc | reflexivity].
Qed.

Lemma rstrip_all_space (s : string) : all_space s = true -> str_rstrip s = EmptyString.
Proof.
  induction s as [|c s IH]; [reflexivity|]. simpl.
  intros [Hc Hs]%andb_prop. now rewrite (IH Hs), Hc.
Qed.

Lemma rstrip_append (a ws : string) (c : ascii) :
  is_space c = false -> all_space ws = true ->
  str_rstrip (a +:+ String c ws) = a +:+ String c EmptyString.
Proof.
  intros Hc Hws. induction a as [|x a IH]; simpl.
  - now rewrite (rstrip_all_space ws Hws), Hc.
  - rewrite IH. now destruct a.
Qed.

Lemma rstrip_idempotent (s : string) : str_rstrip (str_rstrip s) = str_rstrip s.
Proof.
  induction s as [|c s IH]; [reflexivity|]. simpl.
  destruct (str_rstrip s) as [|c' r] eqn:Hr.
  - destruct (is_space c) eqn:Hc; [reflexivity|]. simpl. now rewrite Hc.
  - cbn [str_rstrip] in *. now rewrite IH.
Qed.

Lemma rstrip_head (c : ascii) (s : string) :
  is_space c = false -> exists r, str_rstrip (String c s) = String c r.
Proof.
  intros Hc. simpl. destruct (str_rstrip s); [rewrite Hc|]; eauto.
Qed.

Lemma lstrip_cases (s : string) :
  (all_space s = true /\ str_lstrip s = EmptyString)
  \/ (all_space s = false
      /\ exists c r, str_lstrip s = String c r /\ is_space c = false).
Proof.
  induction s as [|c s IH]; simpl; [now left|].
  destruct (is_space c) eqn:Hc; simpl; [exact IH|].
  right. split; [reflexivity|]. eauto.
Qed.

Lemma strip_cases (s : string) :
  (all_space s = true /\ str_strip s = EmptyString)
  \/ (all_space s = false
      /\ exists c r, str_strip s = String c r /\ is_space c = false
                     /\ str_strip (String c r) = String c r).
Proof.
  unfold str_strip.
  destruct (lstrip_cases s) as [[Hs ->] | (Hs & c & r & -> & Hc)]; [now left|].
  right. split; [exact Hs|].
  destruct (rstrip_head c r Hc) as [r' Hr'].
  exists c, r'. split; [exact Hr'|]. split; [exact Hc|].
  cbn [str_lstrip]. rewrite Hc, <- Hr'. apply rstrip_idempotent.
Qed.

(** X12.  The author [get_git_author] returns holds no apostrophe, whatever [git]
    prints: the quotes of the format are taken out, and an apostrophe of the
    name with them. *)
Theorem git_author_has_no_apostrophe (output : string) :
  mem_char "'" (get_git_author output) = false.
Proof.
  unfold get_git_author. rewrite replace_single. apply replace_char_removed.
Qed.

(** X13.  When [git] prints the name between the quotes of the format, followed by
    a newline, and the name holds no apostrophe, [get_git_author] returns the
    name, with the spaces it may begin or end with. *)
Theorem git_author_unquoted (author : string) :
  mem_char "'" author = false ->
  get_git_author ("'" +:+ author +:+ String "'" (String newline EmptyString)) = author.
Proof.
  intros Hname. unfold get_git_author, str_strip.
  change ("'" +:+ author +:+ String "'" (String newline EmptyString))
    with (String "'" author +:+ String "'" (String newline EmptyString)).
  cbn [String.append str_lstrip]. change (is_space "'") with false. cbv iota.
  change (String "'" (author +:+ String "'" (String newline EmptyString)))
    with (String "'" author +:+ String "'" (String newline EmptyString)).
  rewrite rstrip_append by reflexivity.
  rewrite replace_single, replace_char_app. simpl.
  rewrite (replace_char_absent _ _ _ Hname). apply append_nil_r.
Qed.

Lemma git_author_unquoted_witness :
  get_git_author ("'" +:+ "Ada Lovelace" +:+ String "'" (String newline EmptyString))
  = "Ada Lovelace".
Proof. apply git_author_unquoted. reflexivity. Defined.

(** X14.  [email_to_slackid] fails with the assertion error exactly when the
    lookup prints nothing but white space; the identifier it returns
    otherwise is the output without the white space around it: it is not
    empty and stripping it again changes nothing. *)
Theorem slackid_not_empty (stdout : string) :
  (email_to_slackid stdout = Throw (AssertionError "Email not found")
   <-> all_space stdout = true)
  /\ (forall slackid,
        email_to_slackid stdout = Return slackid ->
        slackid = str_strip stdout /\ slackid <> EmptyString
        /\ str_strip slackid = slackid /\ all_space stdout = false).
Proof.
  unfold email_to_slackid.
  destruct (strip_cases stdout) as [[Hs ->] | (Hs & c & r & -> & Hc & Hfix)]; simpl.
  - split; [tauto | discriminate].
  - rewrite Hs. split; [split; discriminate|].
    intros slackid [= <-]. repeat split; [discriminate | exact Hfix].
Qed.

Lemma slackid_not_empty_witness :
  "U012ABCDEF" = str_strip (" U012ABCDEF" +:+ String newline EmptyString)
  /\ "U012ABCDEF" <> EmptyString
  /\ str_strip "U012ABCDEF" = "U012ABCDEF"
  /\ all_space (" U012ABCDEF" +:+ String newline EmptyString) = false.
Proof.
  apply (proj2 (slackid_not_empty (" U012ABCDEF" +:+ String newline EmptyString))).
  reflexivity.
Defined.

(** ** The check of the change paths *)

Lemma outcome_bind_return {A B : Type} (r : outcome A) (k : A -> outcome B) (b : B) :
  r ≫= k = Return b -> exists a, r = Return a /\ k a = Return b.
Proof. destruct r as [a|e]; [eauto | discriminate]. Qed.

Lemma lift_return {A : Type} (r : result A) (a : A) : lift r = Return a -> r = Ok a.
Proof. destruct r; simpl; congruence. Qed.

Lemma any_path_outside_test_strings (paths : list string) :
  any_path_outside_test (List.map JStr paths)
  = Return (existsb (fun p => negb (str_startswith_any p test_path_prefixes)) paths).
Proof.
  induction paths as [|p paths IH]; [reflexivity|].
  cbn [List.map any_path_outside_test existsb].
  destruct (str_startswith_any p test_path_prefixes); cbn [negb orb];
    [exact IH | reflexivity].
Qed.

(** X17.  A rule is valid when it has [changes] with [paths] and one of the paths
    is outside the test directories.  A rule without [changes], or whose
    [changes] has no [paths], is not valid; neither is a rule whose [changes]
    is the plain list of the paths, unless the string [paths] is one of the
    items of that list: then the rule is read as if it had [paths], and the
    index of the list by a string is a [TypeError]. *)
Theorem valid_change_rule (fields : list (string * json)) :
  (assoc "changes" fields = None ->
   contains_valid_change_rule (JObj fields) = Return false)
  /\ (forall cfields,
        assoc "changes" fields = Some (JObj cfields) ->
        assoc "paths" cfields = None ->
        contains_valid_change_rule (JObj fields) = Return false)
  /\ (forall paths,
        assoc "changes" fields = Some (JArr (List.map JStr paths)) ->
        ~ In "paths" paths ->
        contains_valid_change_rule (JObj fields) = Return false)
  /\ (forall paths,
        assoc "changes" fields = Some (JArr (List.map JStr paths)) ->
        In "paths" paths ->
        contains_valid_change_rule (JObj fields) = Throw (Builtin TypeError))
  /\ (forall cfields paths,
        assoc "changes" fields = Some (JObj cfields) ->
        assoc "paths" cfields = Some (JArr (List.map JStr paths)) ->
        contains_valid_change_rule (JObj fields)
        = Return (existsb (fun p => negb (str_startswith_any p test_path_prefixes)) paths)).
Proof.
  unfold contains_valid_change_rule. simpl.
  split; [|split; [|split; [|split]]].
  - intros ->. reflexivity.
  - intros cfields -> Hp. simpl. now rewrite Hp.
  - intros paths -> Hnot. simpl.
    assert (Hex : existsb (fun x => json_eq_str x "paths") (List.map JStr paths) = false).
    { induction paths as [|p paths IH]; [reflexivity|]. simpl.
      destruct (String.eqb_spec p "paths") as [->|]; [destruct Hnot; now left|].
      apply IH. intros H. apply Hnot. now right. }
    now rewrite Hex.
  - intros paths -> Hin. simpl.
    assert (Hex : existsb (fun x => json_eq_str x "paths") (List.map JStr paths) = true).
    { induction paths as [|p paths IH]; [destruct Hin|]. simpl.
      destruct (String.eqb_spec p "paths") as [->|Hne]; [reflexivity|].
      apply IH. destruct Hin as [->|Hin]; [contradiction | exact Hin]. }
    now rewrite Hex.
  - intros cfields paths -> Hp. simpl. rewrite Hp. simpl.
    apply any_path_outside_test_strings.
Qed.

Lemma valid_change_rule_witness :
  contains_valid_change_rule
    (JObj [("changes", JObj [("paths", JArr (List.map JStr ["test/new-e2e/x.go"; "pkg/y.go"]))])])
  = Return (existsb (fun p => negb (str_startswith_any p test_path_prefixes))
              ["test/new-e2e/x.go"; "pkg/y.go"]).
Proof.
  refine (proj2 (proj2 (proj2 (proj2 (valid_change_rule
            [("changes", JObj [("paths", JArr (List.map JStr ["test/new-e2e/x.go"; "pkg/y.go"]))])]))))
            [("paths", JArr (List.map JStr ["test/new-e2e/x.go"; "pkg/y.go"]))]
            ["test/new-e2e/x.go"; "pkg/y.go"] eq_refl eq_refl).
Defined.

Lemma any_valid_rule_true (rules : list json) :
  any_valid_rule rules = Return true ->
  exists rule, rule ∈ rules /\ is_dict rule = true
               /\ contains_valid_change_rule rule = Return true.
Proof.
  induction rules as [|rule rules IH]; simpl; [discriminate|].
  destruct (is_dict rule) eqn:Hd.
  - intros (valid & Hv & H)%outcome_bind_return. destruct valid.
    + exists rule. split; [apply elem_of_cons; now left | auto].
    + destruct (IH H) as (r & Hr & Hdr & Hvr).
      exists r. split; [apply elem_of_cons; now right | auto].
  - intros H. destruct (IH H) as (r & Hr & Hdr & Hvr).
    exists r. split; [apply elem_of_cons; now right | auto].
Qed.

Lemma collect_tests_elem (test_config : list (string * json)) (tests : list (string * json)) :
  collect_tests test_config = Return tests ->
  forall test data, (test, data) ∈ test_config -> is_template test = false ->
  exists file_path, (test, file_path) ∈ tests.
Proof.
  revert tests. induction test_config as [|[t d] tc IH]; intros tests; simpl.
  - intros _ test data Hin. now apply elem_of_nil in Hin.
  - destruct t as [|c t]; [discriminate|].
    destruct (Ascii.eqb c ".") eqn:Hc; simpl.
    + intros H test data [[= -> ->] | Hin]%elem_of_cons Htest.
      * simpl in Htest. congruence.
      * eauto.
    + intros (fp & Hfp & (more & Hmore & [= <-])%outcome_bind_return)%outcome_bind_return
        test data [[= -> ->] | Hin]%elem_of_cons Htest.
      * exists fp. apply elem_of_cons. now left.
      * destruct (IH _ Hmore _ _ Hin Htest) as [fp' Hfp'].
        exists fp'. apply elem_of_cons. now right.
Qed.

Lemma check_tests_empty (config : json) (tests : list (string * json)) :
  forall acc without,
    check_tests config tests acc = Return without ->
    size without = 0 ->
    size acc = 0
    /\ forall test file_path, (test, file_path) ∈ tests ->
       exists job rules items,
         getitem config test = Ok job /\ getitem job "rules" = Ok rules
         /\ iterate rules = Ok items /\ any_valid_rule items = Return true.
Proof.
  induction tests as [|[t fp] tests IH]; intros acc without; simpl.
  - intros [= <-] Hsize. split; [exact Hsize|].
    intros test file_path Hin. now apply elem_of_nil in Hin.
  - intros (job & Hjob%lift_return & H)%outcome_bind_return.
    apply outcome_bind_return in H as (rules & Hrules%lift_return & H).
    apply outcome_bind_return in H as (items & Hitems%lift_return & H).
    apply outcome_bind_return in H as (valid & Hvalid & H).
    destruct valid.
    + intros Hsize. destruct (IH _ _ H Hsize) as [Hacc Hall]. split; [exact Hacc|].
      intros test file_path [[= -> ->] | Hin]%elem_of_cons; [|eauto].
      exists job, rules, items. auto.
    + apply outcome_bind_return in H as (key & Hkey & H).
      intros Hsize. destruct (IH _ _ H Hsize) as [Hacc _].
      apply map_size_empty_iff in Hacc.
      apply (f_equal (fun m => m !! key)) in Hacc.
      rewrite lookup_insert_eq, lookup_empty in Hacc. discriminate.
Qed.

(** X18.  When the task [test_change_path] returns, every job of the job files
    whose name does not begin with a dot is in the configuration with rules,
    one of which is a dict that [contains_valid_change_rule] accepts. *)
Theorem checked_tests_have_change_rule (config : json) (test_config : list (string * json)) :
  test_change_path config test_config = Return tt ->
  forall test data,
    (test, data) ∈ test_config -> is_template test = false ->
    exists job rules items rule,
      getitem config test = Ok job /\ getitem job "rules" = Ok rules
      /\ iterate rules = Ok items /\ rule ∈ items /\ is_dict rule = true
      /\ contains_valid_change_rule rule = Return true.
Proof.
  unfold test_change_path.
  intros (tests & Htests & (without & Hcheck & H)%outcome_bind_return)%outcome_bind_return
    test data Hin Htest.
  destruct (Nat.eqb_spec (size without) 0) as [Hsize|]; [|discriminate].
  destruct (collect_tests_elem _ _ Htests _ _ Hin Htest) as [fp Hfp].
  destruct (check_tests_empty _ _ _ _ Hcheck Hsize) as [_ Hall].
  destruct (Hall _ _ Hfp) as (job & rules & items & Hjob & Hrules & Hitems & Hvalid).
  destruct (any_valid_rule_true _ Hvalid) as (rule & Hrule & Hd & Hv).
  exists job, rules, items, rule.
  exact (conj Hjob (conj Hrules (conj Hitems (conj Hrule (conj Hd Hv))))).
Qed.

Lemma checked_tests_have_change_rule_witness :
  let rule := JObj [("changes", JObj [("paths", JArr [JStr "pkg/**/*"])])] in
  let config := JObj [("new-e2e-agent", JObj [("rules", JArr [rule])])] in
  let data := JObj [("_file_path", JStr ".gitlab/e2e/e2e.yml")] in
  exists job rules items r,
    getitem config "new-e2e-agent" = Ok job /\ getitem job "rules" = Ok rules
    /\ iterate rules = Ok items /\ r ∈ items /\ is_dict r = true
    /\ contains_valid_change_rule r = Return true.
Proof.
  intros rule config data.
  refine (checked_tests_have_change_rule config [("new-e2e-agent", data)] _
            "new-e2e-agent" data _ _).
  - reflexivity.
  - apply list_elem_of_singleton. reflexivity.
  - reflexivity.
Defined.

Lemma collect_tests_filter (test_config : list (string * json)) :
  collect_tests (List.filter (fun td => negb (is_template (fst td))) test_config)
  = collect_tests test_config.
Proof.
  induction test_config as [|[t d] tc IH]; [reflexivity|].
  cbn [List.filter fst]. destruct t as [|c t].
  - reflexivity.
  - cbn [is_template]. destruct (Ascii.eqb c ".") eqn:Hc; cbn [negb].
    + rewrite IH. cbn [collect_tests]. now rewrite Hc.
    + cbn [collect_tests]. rewrite Hc, IH. reflexivity.
Qed.

(** X19.  The jobs whose name begins with a dot are not checked: with them taken
    out of the job files, the task ends in the same way, whatever they hold
    and whether the configuration knows them or not. *)
Theorem templates_are_not_checked (config : json) (test_config : list (string * json)) :
  test_change_path config
    (List.filter (fun td => negb (is_template (fst td))) test_config)
  = test_change_path config test_config.
Proof. unfold test_change_path. now rewrite collect_tests_filter. Qed.

(** ** The check of the SSM parameters *)

Lemma re_lit_inv {A : Type} (lit : string) (k : string -> option A) (s : string) (r : A) :
  re_lit lit k s = Some r -> exists rest, s = lit +:+ rest /\ k rest = Some r.
Proof.
  revert s. induction lit as [|c lit IH]; intros s; simpl.
  - eauto.
  - destruct s as [|d s]; [discriminate|].
    destruct (Ascii.eqb_spec c d) as [->|]; [|discriminate].
    intros (rest & -> & Hk)%IH. eauto.
Qed.


Lemma re_star_inv {A : Type} (p : ascii -> bool) (k : string -> option A) (s : string) (r : A) :
  re_star p k s = Some r -> exists a rest, s = a +:+ rest /\ k rest = Some r.
Proof.
  induction s as [|c s IH]; simpl.
  - intros H. exists EmptyString, EmptyString. auto.
  - assert (Hhere : k (String c s) = Some r ->
                    exists a rest, String c s = a +:+ rest /\ k rest = Some r).
    { intros H. exists EmptyString, (String c s). auto. }
    destruct (p c); [|exact Hhere].
    destruct (re_star p k s) as [r'|]; [|exact Hhere].
    intros [= ->]. destruct (IH eq_refl) as (a & rest & -> & Hk).
    exists (String c a), rest. auto.
Qed.

Lemma re_plus_inv {A : Type} (p : ascii -> bool) (k : string -> option A) (s : string) (r : A) :
  re_plus p k s = Some r -> exists a rest, s = a +:+ rest /\ k rest = Some r.
Proof.
  destruct s as [|c s]; simpl; [discriminate|].
  destruct (p c); [|discriminate].
  intros (a & rest & -> & Hk)%re_star_inv. exists (String c a), rest. auto.
Qed.

Lemma re_one_inv {A : Type} (p : ascii -> bool) (k : string -> option A) (s : string) (r : A) :
  re_one p k s = Some r -> exists c rest, s = String c rest /\ k rest = Some r.
Proof.
  destruct s as [|c s]; simpl; [discriminate|].
  destruct (p c); [eauto | discriminate].
Qed.








Lemma contains_prefix (sub s : string) :
  String.prefix sub s = true -> PyStr.contains sub s = true.
Proof. intros H. destruct s; cbn [PyStr.contains]; now rewrite H. Qed.

Lemma contains_middle (sub a rest : string) :
  PyStr.contains sub (a +:+ sub +:+ rest) = true.
Proof.
  induction a as [|c a IH].
  - change (EmptyString +:+ sub +:+ rest) with (sub +:+ rest).
    apply contains_prefix, prefix_append.
  - change (String c a +:+ sub +:+ rest) with (String c (a +:+ sub +:+ rest)).
    cbn [PyStr.contains]. rewrite IH. apply orb_true_r.
Qed.

Lemma contains_after (sub a s : string) :
  PyStr.contains sub s = true -> PyStr.contains sub (a +:+ s) = true.
Proof.
  intros H. induction a as [|c a IH]; [exact H|].
  change (String c a +:+ s) with (String c (a +:+ s)).
  cbn [PyStr.contains]. rewrite IH. apply orb_true_r.
Qed.

Lemma ssm_get_contains (s : string) :
  is_Some (ssm_get s) ->
  PyStr.contains "ssm" s = true /\ PyStr.contains "get" s = true.
Proof.
  intros [[] H]. unfold ssm_get in H.
  apply re_plus_inv in H as (a & r1 & -> & H).
  apply re_lit_inv in H as (r2 & -> & H).
  apply re_one_inv in H as (c & r3 & -> & H).
  apply re_lit_inv in H as (r4 & -> & H).
  split.
  - apply contains_middle.
  - apply contains_after.
    apply (contains_middle "get" (String "s" (String "s" (String "m" (String c EmptyString)))) r4).
Qed.

(** The call [scan_lines] reports, from the line of number [nb]. *)
Lemma scan_lines_found (file : string) (lines : list read) :
  forall nb call,
    scan_lines file nb lines = Some call ->
    ssm_file call = file
    /\ (with_wrapper call = false \/ with_env_var call = false)
    /\ exists text,
         lines !! (line_nb call - nb) = Some (Line text)
         /\ nb <= line_nb call
         /\ is_Some (ssm_get (str_strip text))
         /\ (with_wrapper call = false <-> is_Some (aws_ssm_call (str_strip text)))
         /\ Forall (fun l => l <> DecodeError) (take (line_nb call - nb) lines).
Proof.
  induction lines as [|l lines IH]; intros nb call; simpl; [discriminate|].
  destruct l as [line|]; [|discriminate].
  assert (Hnext : scan_lines file (S nb) lines = Some call ->
                  aws_ssm_call (str_strip line) = None \/ ssm_get (str_strip line) = None ->
                  ssm_file call = file
                  /\ (with_wrapper call = false \/ with_env_var call = false)
                  /\ exists text,
                       (Line line :: lines) !! (line_nb call - nb) = Some (Line text)
                       /\ nb <= line_nb call
                       /\ is_Some (ssm_get (str_strip text))
                       /\ (with_wrapper call = false
                           <-> is_Some (aws_ssm_call (str_strip text)))
                       /\ Forall (fun l => l <> DecodeError)
                            (take (line_nb call - nb) (Line line :: lines))).
  { intros H _. destruct (IH _ _ H) as (Hf & Hflags & text & Hl & Hle & Hg & Hw & Hall).
    split; [exact Hf|]. split; [exact Hflags|]. exists text.
    replace (line_nb call - nb) with (S (line_nb call - S nb)) by lia.
    simpl. repeat split; try assumption; try lia; try apply Hw.
    constructor; [discriminate | exact Hall]. }
  destruct (ssm_get (str_strip line)) as [[]|] eqn:Hget; [|intros H; apply Hnext; auto].
  destruct (aws_ssm_call (str_strip line)) as [param|] eqn:Haws.
  - intros [= <-]. simpl. split; [reflexivity|]. split; [now left|].
    exists line. rewrite Nat.sub_diag. simpl. rewrite Hget, Haws.
    repeat split; eauto; try constructor.
  - destruct (ssm_wrapper_call (str_strip line)) as [param|];
      [|intros H; apply Hnext; auto].
    destruct (String.prefix "$" param); simpl; [intros H; apply Hnext; auto|].
    intros [= <-]. simpl. split; [reflexivity|]. split; [now right|].
    exists line. rewrite Nat.sub_diag. simpl. rewrite Hget, Haws.
    repeat split; eauto; try discriminate; try (intros [? [=]]); try constructor.
Qed.

Lemma reported_ssm_call_flags (file : string) (lines : list read) (call : SSMParameterCall) :
  is_get_parameter_call file lines = Some call ->
  ssm_file call = file
  /\ (with_wrapper call = false \/ with_env_var call = false) /\ True.
Proof.
  unfold is_get_parameter_call.
  intros (Hf & Hflags & _)%scan_lines_found. auto.
Qed.

(** X20.  The call [is_get_parameter_call] returns is about the file it is given
    and about one of its lines, before which the file was read without a
    decoding error; the line, without the white space around it, holds [ssm]
    and [get]; the call lacks the wrapper or the environment variable, and
    it lacks the wrapper exactly when the line is a direct call of
    [ssm get-parameter] with [--name]. *)
Theorem reported_ssm_call (file : string) (lines : list read) (call : SSMParameterCall) :
  is_get_parameter_call file lines = Some call ->
  ssm_file call = file
  /\ (with_wrapper call = false \/ with_env_var call = false)
  /\ exists text,
       lines !! line_nb call = Some (Line text)
       /\ PyStr.contains "ssm" (str_strip text) = true
       /\ PyStr.contains "get" (str_strip text) = true
       /\ (with_wrapper call = false <-> is_Some (aws_ssm_call (str_strip text)))
       /\ Forall (fun l => l <> DecodeError) (take (line_nb call) lines).
Proof.
  unfold is_get_parameter_call.
  intros (Hf & Hflags & text & Hl & _ & Hget & Hw & Hall)%scan_lines_found.
  rewrite Nat.sub_0_r in Hl, Hall.
  destruct (ssm_get_contains _ Hget) as [Hssm Hg].
  split; [exact Hf|]. split; [exact Hflags|]. exists text. auto.
Qed.

Lemma reported_ssm_call_witness :
  ssm_file (mkSSMParameterCall ".gitlab/deploy.yml" 1 false false) = ".gitlab/deploy.yml"
  /\ (with_wrapper (mkSSMParameterCall ".gitlab/deploy.yml" 1 false false) = false
      \/ with_env_var (mkSSMParameterCall ".gitlab/deploy.yml" 1 false false) = false)
  /\ exists text,
       [Line "script:"; Line "  - aws ssm get-parameter --name ci.key"]
         !! line_nb (mkSSMParameterCall ".gitlab/deploy.yml" 1 false false) = Some (Line text)
       /\ PyStr.contains "ssm" (str_strip text) = true
       /\ PyStr.contains "get" (str_strip text) = true
       /\ (with_wrapper (mkSSMParameterCall ".gitlab/deploy.yml" 1 false false) = false
           <-> is_Some (aws_ssm_call (str_strip text)))
       /\ Forall (fun l => l <> DecodeError)
            (take (line_nb (mkSSMParameterCall ".gitlab/deploy.yml" 1 false false))
               [Line "script:"; Line "  - aws ssm get-parameter --name ci.key"]).
Proof.
  apply (reported_ssm_call ".gitlab/deploy.yml"
           [Line "script:"; Line "  - aws ssm get-parameter --name ci.key"]).
  reflexivity.
Defined.



(** X22.  [str(call)] begins with the file and the number of the line counted from
    one, and a call that [is_get_parameter_call] reports always comes with an
    advice: the text after the position is not empty. *)
Theorem reported_call_has_advice (file : string) (lines : list read) (call : SSMParameterCall) :
  is_get_parameter_call file lines = Some call ->
  exists advice,
    ssm_call_str call = file +:+ ":" +:+ pretty.pretty (S (line_nb call)) +:+ ". " +:+ advice
    /\ advice <> EmptyString.
Proof.
  intros (Hf & Hflags & _)%reported_ssm_call_flags.
  unfold ssm_call_str. rewrite Hf, Nat.add_1_r.
  destruct (with_wrapper call), (with_env_var call); simpl;
    try (eexists; split; [reflexivity | discriminate]).
  destruct Hflags; discriminate.
Qed.

Lemma reported_call_has_advice_witness :
  exists advice,
    ssm_call_str (mkSSMParameterCall "tasks/a.py" 0 true false)
    = "tasks/a.py" +:+ ":" +:+ pretty.pretty 1 +:+ ". " +:+ advice
    /\ advice <> EmptyString.
Proof.
  apply (reported_call_has_advice "tasks/a.py" [Line "x = aws_ssm_get_wrapper.sh foo)"]).
  reflexivity.
Defined.

Lemma ssm_error_files (files : list string) (read_file : string -> list read) :
  forall acc,
    fold_left
      (fun error_files filename =>
         if existsb (fun f => String.prefix f filename) lint_folders then
           match is_get_parameter_call filename (read_file filename) with
           | Some matched => error_files ++ [matched]
           | None => error_files
           end
         else error_files)
      files acc
    = acc ++ omap (fun filename =>
                     if existsb (fun f => String.prefix f filename) lint_folders
                     then is_get_parameter_call filename (read_file filename)
                     else None) files.
Proof.
  induction files as [|f files IH]; intros acc; [simpl; now rewrite app_nil_r|].
  cbn [fold_left omap list_omap]. rewrite IH.
  destruct (existsb (fun f0 => String.prefix f0 f) lint_folders); [|reflexivity].
  destruct (is_get_parameter_call f (read_file f)); [|reflexivity].
  now rewrite <- app_assoc.
Qed.

(** X23.  The task [ssm_parameters] ends with [Exit(code=1)] exactly when a listed
    file under one of the checked folders has a call that
    [is_get_parameter_call] reports, and then prints one line for each such
    file; the files outside these folders are not read: what they hold does
    not change the result. *)
Theorem ssm_parameters_fails_iff (stdout : string) (read_file : string -> list read) :
  (snd (ssm_parameters stdout read_file) = Throw (Exit 1)
   <-> exists filename,
         filename ∈ str_split newline stdout
         /\ existsb (fun f => String.prefix f filename) lint_folders = true
         /\ is_Some (is_get_parameter_call filename (read_file filename)))
  /\ (snd (ssm_parameters stdout read_file) = Throw (Exit 1)
      \/ ssm_parameters stdout read_file = ([], Return tt))
  /\ (forall read_file',
        (forall filename,
           existsb (fun f => String.prefix f filename) lint_folders = true ->
           read_file' filename = read_file filename) ->
        ssm_parameters stdout read_file' = ssm_parameters stdout read_file).
Proof.
  unfold ssm_parameters. rewrite ssm_error_files. cbn [app].
  split; [|split].
  - destruct (omap _ (str_split newline stdout)) as [|call calls] eqn:Hcalls; cbn [snd].
    + split; [discriminate|]. intros (f & Hin & Hf & [call Hcall]).
      assert (Hel : call ∈ omap (fun filename =>
                 if existsb (fun f => String.prefix f filename) lint_folders
                 then is_get_parameter_call filename (read_file filename)
                 else None) (str_split newline stdout)).
      { apply list_elem_of_omap. exists f. split; [exact Hin|]. now rewrite Hf. }
      rewrite Hcalls in Hel. now apply elem_of_nil in Hel.
    + split; [intros _|reflexivity].
      assert (Hel : call ∈ omap (fun filename =>
                 if existsb (fun f => String.prefix f filename) lint_folders
                 then is_get_parameter_call filename (read_file filename)
                 else None) (str_split newline stdout)).
      { rewrite Hcalls. apply elem_of_cons. now left. }
      apply list_elem_of_omap in Hel as (f & Hin & Hf).
      exists f. split; [exact Hin|].
      destruct (existsb _ lint_folders); [eauto | discriminate].
  - destruct (omap _ (str_split newline stdout)); cbn [snd]; auto.
  - intros read_file' Hsame. rewrite ssm_error_files. cbn [app].
    assert (Heq : omap (fun filename =>
                 if existsb (fun f => String.prefix f filename) lint_folders
                 then is_get_parameter_call filename (read_file' filename)
                 else None) (str_split newline stdout)
              = omap (fun filename =>
                 if existsb (fun f => String.prefix f filename) lint_folders
                 then is_get_parameter_call filename (read_file filename)
                 else None) (str_split newline stdout)).
    { induction (str_split newline stdout) as [|f files IH]; [reflexivity|].
      cbn [omap list_omap]. rewrite IH.
      destruct (existsb (fun f0 => String.prefix f0 f) lint_folders) eqn:Hf; [|reflexivity].
      now rewrite (Hsame f Hf). }
    now rewrite Heq.
Qed.

Lemma ssm_parameters_fails_iff_witness :
  ssm_parameters ("docs/a.md" +:+ String newline "tasks/b.py")
    (fun filename => if String.eqb filename "docs/a.md"
                     then [Line "aws ssm get-parameter --name x"] else [])
  = ssm_parameters ("docs/a.md" +:+ String newline "tasks/b.py") (fun _ => []).
Proof.
  refine (proj2 (proj2 (ssm_parameters_fails_iff
            ("docs/a.md" +:+ String newline "tasks/b.py") (fun _ => []))) _ _).
  intros filename Hf.
  destruct (String.eqb_spec filename "docs/a.md") as [->|]; [discriminate | reflexivity].
Defined.

(** ** The list of the SSM parameters *)

Lemma append_param_keys (owner param : string) (groups : list (string * list string)) :
  (append_param owner param groups).*1
  = if bool_decide (owner ∈ groups.*1) then groups.*1 else groups.*1 ++ [owner].
Proof.
  induction groups as [|[o ps] groups IH]; [reflexivity|].
  cbn [append_param]. destruct (String.eqb_spec o owner) as [->|Hne].
  - rewrite bool_decide_eq_true_2; [reflexivity|]. simpl. apply elem_of_cons. now left.
  - rewrite !fmap_cons, IH. simpl. case_bool_decide as Hin.
    + rewrite bool_decide_eq_true_2; [reflexivity|]. apply elem_of_cons. now right.
    + rewrite bool_decide_eq_false_2; [reflexivity|].
      intros [->|H]%elem_of_cons; contradiction.
Qed.

Lemma append_param_params (owner param o : string) (groups : list (string * list string)) :
  group_params o (append_param owner param groups)
  = group_params o groups ++ (if String.eqb owner o then [param] else []).
Proof.
  unfold group_params. induction groups as [|[o' ps'] groups IH].
  - simpl. now destruct (String.eqb owner o).
  - cbn [append_param]. destruct (String.eqb_spec o' owner) as [->|Hne].
    + cbn [List.find fst snd]. destruct (String.eqb owner o); [reflexivity|].
      now rewrite app_nil_r.
    + cbn [List.find fst snd]. destruct (String.eqb_spec o' o) as [->|Hne'].
      * apply String.eqb_neq in Hne. rewrite String.eqb_sym in Hne.
        now rewrite Hne, app_nil_r.
      * exact IH.
Qed.

Lemma group_params_elem (o : string) (ps : list string) (groups : list (string * list string)) :
  NoDup groups.*1 -> (o, ps) ∈ groups -> group_params o groups = ps.
Proof.
  unfold group_params. induction groups as [|[o' ps'] groups IH]; intros Hnodup Hin.
  - now apply elem_of_nil in Hin.
  - rewrite fmap_cons in Hnodup.
    pose proof (NoDup_cons_1_1 _ _ Hnodup) as Hfresh.
    apply NoDup_cons_1_2 in Hnodup. simpl in Hfresh.
    cbn [List.find fst]. apply elem_of_cons in Hin as [[= -> ->] | Hin].
    + now rewrite String.eqb_refl.
    + destruct (String.eqb_spec o' o) as [->|Hne]; [|now apply IH].
      destruct Hfresh. apply list_elem_of_fmap. exists (o, ps). auto.
Qed.

Lemma params_of_app (owner : string) (a b : list string) :
  params_of owner (a ++ b) = params_of owner a ++ params_of owner b.
Proof. unfold params_of. apply omap_app. Qed.

Lemma collect_ssm_params_spec (lines : list string) :
  NoDup (collect_ssm_params lines).*1
  /\ (forall o, o ∈ (collect_ssm_params lines).*1 <-> params_of o lines <> [])
  /\ (forall o, group_params o (collect_ssm_params lines) = params_of o lines).
Proof.
  unfold collect_ssm_params.
  induction lines as [|line lines IH] using rev_ind.
  - simpl. split; [constructor|]. split; [|reflexivity].
    intros o. rewrite elem_of_nil. tauto.
  - rewrite fold_left_app. cbn [fold_left].
    set (groups := fold_left _ lines []) in *.
    destruct IH as (Hnodup & Hkeys & Hvals).
    assert (Hlast : forall o, params_of o (lines ++ [line])
              = params_of o lines
                ++ match ssm_owner (str_strip line) with
                   | Some (param, o') => if String.eqb o' o then [param] else []
                   | None => []
                   end).
    { intros o. rewrite params_of_app. f_equal. unfold params_of. simpl.
      destruct (ssm_owner (str_strip line)) as [[param o']|]; [|reflexivity].
      now destruct (String.eqb o' o). }
    destruct (ssm_owner (str_strip line)) as [[param owner]|] eqn:Hm.
    + split; [|split].
      * rewrite append_param_keys. case_bool_decide as Hin; [exact Hnodup|].
        apply list.NoDup_app. split; [exact Hnodup|].
        split; [|apply NoDup_singleton].
        intros x Hx ->%list_elem_of_singleton. contradiction.
      * intros o. rewrite append_param_keys, Hlast.
        destruct (String.eqb_spec owner o) as [->|Hne].
        -- split; [intros _ H; now apply app_eq_nil in H as [_ [=]]|]. intros _.
           case_bool_decide as Hin; [exact Hin|]. apply elem_of_app. right.
           now apply list_elem_of_singleton.
        -- rewrite app_nil_r, <- Hkeys. case_bool_decide as Hin; [reflexivity|].
           rewrite elem_of_app, list_elem_of_singleton. split; [|auto].
           intros [H | ->]; [exact H | contradiction].
      * intros o. now rewrite append_param_params, Hlast, Hvals.
    + split; [exact Hnodup|]. split.
      * intros o. rewrite Hlast, app_nil_r. apply Hkeys.
      * intros o. now rewrite Hlast, app_nil_r.
Qed.

(** X24.  [list_ssm_parameters] groups the parameters by owner: each owner of a
    line of the file is printed once, followed by the parameters of the lines
    that name this owner, in the order of the lines; nothing else is
    printed. *)
Theorem ssm_parameters_grouped_by_owner (lines : list string) :
  exists owners,
    NoDup owners
    /\ (forall o, o ∈ owners <-> params_of o lines <> [])
    /\ list_ssm_parameters lines
       = flat_map (fun o => ("Owner:" +:+ o)
                              :: List.map (fun param => "  - " +:+ param) (params_of o lines))
           owners.
Proof.
  destruct (collect_ssm_params_spec lines) as (Hnodup & Hkeys & Hvals).
  exists (collect_ssm_params lines).*1. split; [exact Hnodup|]. split; [exact Hkeys|].
  unfold list_ssm_parameters.
  assert (Hgroup : forall o ps, (o, ps) ∈ collect_ssm_params lines -> ps = params_of o lines).
  { intros o ps Hin. rewrite <- Hvals. symmetry. now apply group_params_elem. }
  revert Hgroup. clear.
  induction (collect_ssm_params lines) as [|[o ps] groups IH]; intros Hvals; [reflexivity|].
  rewrite fmap_cons. cbn [flat_map fst]. rewrite IH.
  - rewrite (Hvals o ps); [reflexivity|]. apply elem_of_cons. now left.
  - intros o' ps' Hin. apply Hvals. apply elem_of_cons. now right.
Qed.

(** ** More on the reference to the pull request *)

(** X11.  [get_pr_from_commit] reports a pull request only when the title ends
    with the reference: the identifier it returns is made of digits, it
    stands in parentheses after a hash sign at the very end of the title (a
    single newline may follow), and the address is the one of that pull
    request under the project. *)
Theorem pr_reference_is_trailing (commit_title : string) (project_title : option string)
    (parsed_pr_id pr_url_github : string) :
  get_pr_from_commit commit_title project_title = Some (parsed_pr_id, pr_url_github) ->
  all_digits parsed_pr_id = true
  /\ (exists pre,
        commit_title = pre +:+ "(#" +:+ parsed_pr_id +:+ ")"
        \/ commit_title
           = pre +:+ "(#" +:+ parsed_pr_id +:+ String ")" (String newline EmptyString))
  /\ pr_url_github
     = "https://github.com/DataDog/" +:+ PyStr.fmt project_title +:+ "/pull/" +:+ parsed_pr_id.
Proof.
  unfold get_pr_from_commit.
  destruct (re_search commit_title) as [ds|] eqn:Hs; [|discriminate].
  intros [= <- <-]. apply re_search_trailing_pr in Hs as [Hd Hpre].
  split; [exact Hd|]. split; [exact Hpre | reflexivity].
Qed.

Lemma pr_reference_is_trailing_witness :
  all_digits "4321" = true
  /\ (exists pre,
        "Fix bug (#4321)" = pre +:+ "(#" +:+ "4321" +:+ ")"
        \/ "Fix bug (#4321)" = pre +:+ "(#" +:+ "4321" +:+ String ")" (String newline EmptyString))
  /\ "https://github.com/DataDog/datadog-agent/pull/4321"
     = "https://github.com/DataDog/" +:+ PyStr.fmt (Some "datadog-agent") +:+ "/pull/" +:+ "4321".
Proof.
  apply (pr_reference_is_trailing "Fix bug (#4321)" (Some "datadog-agent")).
  reflexivity.
Defined.
